(** * Gpro Serial Monitor (serial_monitor.py): model and properties

    The program is a single-window serial console.  A background
    [SerialReader] thread reads lines from an open port and puts
    [(timestamp, text)] pairs on a queue; a UI timer drains the queue into
    the console; the controller opens and closes the port and writes
    outbound text.

    Python [str] values are lists of Unicode code points and [bytes] values
    are lists of octets, both carried by [list Z].  Objects that the program
    shares by reference (the [serial.Serial] handles and the reader threads)
    live in stores indexed by their identity.  Everything the operating
    system or the user decides (whether a port opens, what a read returns,
    whether a bounded join sees the thread exit, the wall clock, the
    platform's line separator) is an explicit argument of the operation that
    consumes it.

    A callback of the window runs to completion on the UI thread, and a
    reader advances by whole passes of its loop; a run of the application is
    a sequence of such events in any order.  The widgets are the toolkit's:
    the console is the sequence of texts appended to it, from which the
    plain text it gives back is computed, the status bar the sequence of
    messages shown. *)

From Stdlib Require Import ZArith String Ascii DecimalString.
From stdpp Require Import prelude gmap.

(** ** Python built-ins used by the program *)

Module Py.
Local Open Scope Z_scope.

(** An ASCII literal as a [str]. *)
Fixpoint lit (s : string) : list Z :=
  match s with
  | EmptyString => []
  | String a s' => Z.of_N (N_of_ascii a) :: lit s'
  end.
Global Arguments lit : simpl never.

(** ["\n"] and ["\r"]: the one-character strings. *)
Definition LF : Z := 10.
Definition CR : Z := 13.

(** [os.linesep]: ["\n"] on POSIX systems, ["\r\n"] on Windows. *)
Definition LINESEP_POSIX : list Z := [LF].
Definition LINESEP_WINDOWS : list Z := [CR; LF].

(** [str.isspace] on one character (the Unicode white-space code points). *)
Definition isspace (c : Z) : bool :=
  ((0x09 <=? c) && (c <=? 0x0D)) || ((0x1C <=? c) && (c <=? 0x20))
  || (c =? 0x85) || (c =? 0xA0) || (c =? 0x1680)
  || ((0x2000 <=? c) && (c <=? 0x200A))
  || (c =? 0x2028) || (c =? 0x2029) || (c =? 0x202F) || (c =? 0x205F)
  || (c =? 0x3000).

(** [s.rstrip()]: drop the trailing white space. *)
Fixpoint rstrip (s : list Z) : list Z :=
  match s with
  | [] => []
  | c :: s' =>
      match rstrip s' with
      | [] => if isspace c then [] else [c]
      | r => c :: r
      end
  end.

(** Truth value of a [str] and of an optional [str] ([None] is false). *)
Definition truthy (s : list Z) : bool :=
  match s with [] => false | _ :: _ => true end.

Definition truthy_opt (o : option (list Z)) : bool :=
  match o with None => false | Some s => truthy s end.

(** [s.split(" ")[0]]: the characters before the first space. *)
Fixpoint split_space_head (s : list Z) : list Z :=
  match s with
  | [] => []
  | c :: s' => if c =? 32 then [] else c :: split_space_head s'
  end.

(** [s.startswith("(")]. *)
Definition startswith_paren (s : list Z) : bool :=
  match s with c :: _ => c =? 40 | [] => false end.

(** [str(n)] for an [int]. *)
Definition str_of_int (n : Z) : list Z :=
  lit (NilZero.string_of_int (Z.to_int n)).

(** [int(s)] on the texts the baud selector can hold: a non-empty run of
    ASCII digits gives its value, anything else is the [ValueError] case.
    (Python's [int] also accepts signs, blanks and underscores; no item of
    the selector has them.) *)
Fixpoint int_digits (acc : Z) (s : list Z) : option Z :=
  match s with
  | [] => Some acc
  | c :: s' =>
      if (48 <=? c) && (c <=? 57) then int_digits (10 * acc + (c - 48)) s'
      else None
  end.

Definition int_of_str (s : list Z) : option Z :=
  match s with [] => None | _ :: _ => int_digits 0 s end.

(** [s.replace(old_char, new)] for a one-character [old]. *)
Fixpoint replace_char (old : Z) (new : list Z) (s : list Z) : list Z :=
  match s with
  | [] => []
  | c :: s' =>
      (if c =? old then new else [c]) ++ replace_char old new s'
  end.

(** ["\n".join(parts)]. *)
Fixpoint join_lines (parts : list (list Z)) : list Z :=
  match parts with
  | [] => []
  | [p] => p
  | p :: rest => p ++ LF :: join_lines rest
  end.

(** Whether the last character of [s] is white space. *)
Definition ends_in_space (s : list Z) : bool :=
  match last s with Some c => isspace c | None => false end.

(** What reading a text file back with [open(path, encoding="utf-8")]
    does to line ends: ["\r\n"] and a lone ["\r"] both become ["\n"]. *)
Fixpoint universal_newlines (s : list Z) : list Z :=
  match s with
  | [] => []
  | c :: s' =>
      if c =? CR then
        match s' with
        | d :: s'' => if d =? LF then LF :: universal_newlines s''
                      else LF :: universal_newlines s'
        | [] => [LF]
        end
      else c :: universal_newlines s'
  end.

(** [s[:-n]]. *)
Definition drop_last (n : nat) (s : list Z) : list Z :=
  take (length s - n)%nat s.

(** Lower-case hexadecimal digit. *)
Definition hex_digit (d : Z) : Z := if d <? 10 then 48 + d else 87 + d.

(** [str(b)] for a [bytes] object: the [b'...'] literal. *)
Definition repr_byte (quote b : Z) : list Z :=
  if (b =? quote) || (b =? 92) then [92; b]
  else if b =? 9 then [92; 116]
  else if b =? 10 then [92; 110]
  else if b =? 13 then [92; 114]
  else if (b <? 32) || (127 <=? b) then
    [92; 120; hex_digit (b / 16); hex_digit (b mod 16)]
  else [b].

Definition has_byte (b : Z) (bs : list Z) : bool := existsb (Z.eqb b) bs.

Definition str_of_bytes (bs : list Z) : list Z :=
  let quote := if has_byte 39 bs && negb (has_byte 34 bs) then 34 else 39 in
  98 :: quote :: concat (map (repr_byte quote) bs) ++ [quote].

End Py.

(** ** The UTF-8 codec behind [str.encode], [bytes.decode] and text files *)

Module Utf8.
Local Open Scope Z_scope.

(** The [errors=] argument. *)
Inductive errors := Strict | Replace.

Definition REPLACEMENT : Z := 0xFFFD.
Definition QUESTION : Z := 63.

Definition is_surrogate (c : Z) : bool := (0xD800 <=? c) && (c <=? 0xDFFF).

(** A scalar value: what a well-formed text holds. *)
Definition scalar (c : Z) : Prop :=
  0 <= c <= 0x10FFFF /\ is_surrogate c = false.

Definition encode_char (c : Z) : list Z :=
  if c <? 0x80 then [c]
  else if c <? 0x800 then [0xC0 + c / 64; 0x80 + c mod 64]
  else if c <? 0x10000 then
    [0xE0 + c / 4096; 0x80 + (c / 64) mod 64; 0x80 + c mod 64]
  else
    [0xF0 + c / 262144; 0x80 + (c / 4096) mod 64;
     0x80 + (c / 64) mod 64; 0x80 + c mod 64].

(** Length of the run of lone surrogates at the head of [s]. *)
Fixpoint surrogate_run (s : list Z) : nat :=
  match s with
  | c :: s' => if is_surrogate c then S (surrogate_run s') else 0%nat
  | [] => 0%nat
  end.

(** [UnicodeEncodeError]: the offending character and the range
    [start, stop) of the run it opens. *)
Record encode_error := { bad_char : Z; bad_start : nat; bad_stop : nat }.

(** [s.encode("utf-8", errors)], scanning from position [pos]: a lone
    surrogate cannot be encoded; [Replace] writes ["?"] for it and [Strict]
    raises. *)
Fixpoint encode_from (m : errors) (pos : nat) (s : list Z)
  : encode_error + list Z :=
  match s with
  | [] => inr []
  | c :: s' =>
      if is_surrogate c then
        match m with
        | Strict =>
            inl {| bad_char := c; bad_start := pos;
                   bad_stop := (pos + surrogate_run s)%nat |}
        | Replace =>
            match encode_from m (S pos) s' with
            | inr bs => inr (QUESTION :: bs)
            | inl e => inl e
            end
        end
      else
        match encode_from m (S pos) s' with
        | inr bs => inr (encode_char c ++ bs)
        | inl e => inl e
        end
  end.

Definition encode (m : errors) (s : list Z) : encode_error + list Z :=
  encode_from m 0 s.

(** A text the strict encoder accepts: no lone surrogate. *)
Definition encodable (s : list Z) : bool :=
  forallb (λ c, negb (is_surrogate c)) s.

(** The bytes [s.encode(errors="replace")] is made of, character by
    character. *)
Definition replace_char_bytes (c : Z) : list Z :=
  if is_surrogate c then [QUESTION] else encode_char c.

Definition encode_replace (s : list Z) : list Z :=
  concat (map replace_char_bytes s).

(** [str(e)] for the [UnicodeEncodeError] of the utf-8 codec. *)
Definition hex4 (c : Z) : list Z :=
  [Py.hex_digit (c / 4096 mod 16); Py.hex_digit (c / 256 mod 16);
   Py.hex_digit (c / 16 mod 16); Py.hex_digit (c mod 16)].

Definition str_of_encode_error (e : encode_error) : list Z :=
  if (bad_stop e =? S (bad_start e))%nat then
    Py.lit "'utf-8' codec can't encode character '\u" ++ hex4 (bad_char e)
    ++ Py.lit "' in position " ++ Py.str_of_int (Z.of_nat (bad_start e))
    ++ Py.lit ": surrogates not allowed"
  else
    Py.lit "'utf-8' codec can't encode characters in position "
    ++ Py.str_of_int (Z.of_nat (bad_start e)) ++ Py.lit "-"
    ++ Py.str_of_int (Z.of_nat (bad_stop e) - 1)
    ++ Py.lit ": surrogates not allowed".

(** Continuation byte, and the admissible second byte after a three- or
    four-byte lead (no overlong forms, no surrogates, nothing above
    U+10FFFF). *)
Definition is_cont (b : Z) : bool := (0x80 <=? b) && (b <=? 0xBF).

Definition second3 (b0 b1 : Z) : bool :=
  if b0 =? 0xE0 then (0xA0 <=? b1) && (b1 <=? 0xBF)
  else if b0 =? 0xED then (0x80 <=? b1) && (b1 <=? 0x9F)
  else is_cont b1.

Definition second4 (b0 b1 : Z) : bool :=
  if b0 =? 0xF0 then (0x90 <=? b1) && (b1 <=? 0xBF)
  else if b0 =? 0xF4 then (0x80 <=? b1) && (b1 <=? 0x8F)
  else is_cont b1.

(** What the codec does at an ill-formed sequence: [Strict] raises
    ([None]), [Replace] emits U+FFFD and resumes at [rest]. *)
Definition on_error (m : errors) (rest : option (list Z)) : option (list Z) :=
  match m with
  | Strict => None
  | Replace => cons REPLACEMENT <$> rest
  end.

(** [bs.decode("utf-8", errors)]: [None] is [UnicodeDecodeError].  An
    ill-formed sequence is abandoned at its first inadmissible byte, which
    is then read again as a lead byte. *)
Fixpoint decode (m : errors) (bs : list Z) {struct bs} : option (list Z) :=
  match bs with
  | [] => Some []
  | b0 :: r =>
      if b0 <? 0x80 then cons b0 <$> decode m r
      else if b0 <? 0xC2 then on_error m (decode m r)
      else if b0 <? 0xE0 then
        match r with
        | [] => on_error m (Some [])
        | b1 :: r1 =>
            if is_cont b1 then
              cons ((b0 - 0xC0) * 64 + (b1 - 0x80)) <$> decode m r1
            else on_error m (decode m r)
        end
      else if b0 <? 0xF0 then
        match r with
        | [] => on_error m (Some [])
        | b1 :: r1 =>
            if second3 b0 b1 then
              match r1 with
              | [] => on_error m (Some [])
              | b2 :: r2 =>
                  if is_cont b2 then
                    cons ((b0 - 0xE0) * 4096 + (b1 - 0x80) * 64 + (b2 - 0x80))
                      <$> decode m r2
                  else on_error m (decode m r1)
              end
            else on_error m (decode m r)
        end
      else if b0 <? 0xF5 then
        match r with
        | [] => on_error m (Some [])
        | b1 :: r1 =>
            if second4 b0 b1 then
              match r1 with
              | [] => on_error m (Some [])
              | b2 :: r2 =>
                  if is_cont b2 then
                    match r2 with
                    | [] => on_error m (Some [])
                    | b3 :: r3 =>
                        if is_cont b3 then
                          cons ((b0 - 0xF0) * 262144 + (b1 - 0x80) * 4096
                                + (b2 - 0x80) * 64 + (b3 - 0x80))
                            <$> decode m r3
                        else on_error m (decode m r2)
                    end
                  else on_error m (decode m r1)
              end
            else on_error m (decode m r)
        end
      else on_error m (decode m r)
  end.

(** How the decoder delimits an ill-formed sequence.  [trail b0] is the
    number of bytes that must follow the lead byte [b0] (none for a byte
    that leads nothing); [admissible b0 i b] says that [b] may be the byte
    [i] places after the lead; [well_begun b0 0 pre] that [pre] is the
    beginning of a sequence led by [b0]; [goes_on b0 i r] that the first
    byte of [r] carries that sequence on. *)
Definition trail (b0 : Z) : nat :=
  if b0 <? 0xC2 then 0%nat
  else if b0 <? 0xE0 then 1%nat
  else if b0 <? 0xF0 then 2%nat
  else if b0 <? 0xF5 then 3%nat
  else 0%nat.

Definition admissible (b0 : Z) (i : nat) (b : Z) : bool :=
  match i with
  | 0%nat =>
      if b0 <? 0xE0 then is_cont b
      else if b0 <? 0xF0 then second3 b0 b
      else second4 b0 b
  | _ => is_cont b
  end.

Fixpoint well_begun (b0 : Z) (i : nat) (pre : list Z) : bool :=
  match pre with
  | [] => true
  | b :: pre' => admissible b0 i b && well_begun b0 (S i) pre'
  end.

Definition goes_on (b0 : Z) (i : nat) (r : list Z) : bool :=
  match r with
  | b :: _ => admissible b0 i b
  | [] => false
  end.

End Utf8.

(** ** The wall clock *)

Module Clock.
Local Open Scope Z_scope.

(** The fields of [datetime.datetime.now()] that the program prints. *)
Record datetime := {
  hour : Z; minute : Z; second : Z; microsecond : Z
}.

Definition digit (n : Z) : Z := 48 + n mod 10.

Definition pad2 (n : Z) : list Z := [digit (n / 10); digit n].
Definition pad3 (n : Z) : list Z := [digit (n / 100); digit (n / 10); digit n].
Definition pad6 (n : Z) : list Z :=
  [digit (n / 100000); digit (n / 10000); digit (n / 1000);
   digit (n / 100); digit (n / 10); digit n].

(** [now.strftime("%H:%M:%S.%f")]. *)
Definition strftime_HMSf (t : datetime) : list Z :=
  pad2 (hour t) ++ 58 :: pad2 (minute t) ++ 58 :: pad2 (second t)
  ++ 46 :: pad6 (microsecond t).

(** [datetime.datetime.now().strftime("%H:%M:%S.%f")[:-3]]. *)
Definition timestamp (t : datetime) : list Z :=
  Py.drop_last 3 (strftime_HMSf t).

End Clock.

(** ** The text widget: [QPlainTextEdit] *)

Module Qt.
Local Open Scope Z_scope.

Definition SPACE : Z := 32.
Definition NBSP : Z := 0xA0.
Definition LINE_SEPARATOR : Z := 0x2028.
Definition PARAGRAPH_SEPARATOR : Z := 0x2029.
Definition BEGINNING_OF_FRAME : Z := 0xFDD0.
Definition END_OF_FRAME : Z := 0xFDD1.

(** The characters that [toPlainText] does not give back as they were
    appended. *)
Definition special (c : Z) : bool :=
  (c =? Py.CR) || (c =? NBSP) || (c =? LINE_SEPARATOR)
  || (c =? PARAGRAPH_SEPARATOR) || (c =? BEGINNING_OF_FRAME)
  || (c =? END_OF_FRAME).

(** What [toPlainText] returns for one appended character.
    [QTextDocument::toPlainText] replaces the no-break space by a space and
    the line and paragraph separators by a line feed.  A carriage return,
    a paragraph separator and the two frame markers do not stay in the
    text at all: [QTextCursor::insertText] starts a new block at each, as
    it does at a line feed, and blocks come back separated by line
    feeds. *)
Definition plain_char (c : Z) : Z :=
  if c =? NBSP then SPACE
  else if (c =? Py.CR) || (c =? LINE_SEPARATOR) || (c =? PARAGRAPH_SEPARATOR)
          || (c =? BEGINNING_OF_FRAME) || (c =? END_OF_FRAME)
  then Py.LF
  else c.

(** The plain text of the blocks that one [appendPlainText(text)] makes: a
    carriage return followed by a line feed ends one block, not two. *)
Fixpoint paragraph_text (text : list Z) : list Z :=
  match text with
  | [] => []
  | c :: rest =>
      match rest with
      | d :: _ =>
          if (c =? Py.CR) && (d =? Py.LF) then paragraph_text rest
          else plain_char c :: paragraph_text rest
      | [] => [plain_char c]
      end
  end.

(** [appendPlainText] starts a new block unless the document is empty, and
    a document is empty until a character or a block has been inserted: the
    empty texts appended first leave no block. *)
Fixpoint skip_empty (appended : list (list Z)) : list (list Z) :=
  match appended with
  | [] :: rest => skip_empty rest
  | _ => appended
  end.

(** [toPlainText()] of a [QPlainTextEdit] after [clear()] and the calls
    [appendPlainText(t)] for [t] in [appended]. *)
Definition plain_text (appended : list (list Z)) : list Z :=
  Py.join_lines (map paragraph_text (skip_empty appended)).

End Qt.

(** ** The application: [SerialReader] and [SerialMonitor] *)

Module SerialMonitor.
Import Py.

(** An exception that [except Exception] catches; [str_of_exn e] is
    [str(e)]. *)
Inductive exn := Exception (msg : list Z).

Definition str_of_exn (e : exn) : list Z :=
  match e with Exception msg => msg end.

(** How a call ends: it returns, or an exception leaves it.  Either way the
    state reached so far stays. *)
Inductive result (A : Type) :=
| Returns (a : A)
| Raises (e : exn) (a : A).
Arguments Returns {A} a.
Arguments Raises {A} e a.

Definition state_of {A} (r : result A) : A :=
  match r with Returns a => a | Raises _ a => a end.

(** [try: body / except Exception: pass]. *)
Definition except_pass {A} (body : result A) : result A :=
  Returns (state_of body).

(** A queue entry [(ts, text)]; [ts] is [None] for the reader's error
    entry. *)
Definition entry : Type := option (list Z) * list Z.

(** A [serial.Serial] object: the arguments it was opened with, its
    [is_open] flag and the byte strings [write] has accepted, oldest
    first. *)
Record Serial := {
  device : list Z; baudrate : Z; timeout_ms : Z;
  is_open : bool; tx : list (list Z)
}.

(** A [SerialReader] thread: the handle it reads from and whether it is
    alive (started and [run] not yet finished).  Its queue and stop event
    are the monitor's own, shared by every reader. *)
Record SerialReader := { reader_ser : nat; is_alive : bool }.

(** The [SerialMonitor] window.  [ser] and [reader] are references into
    the stores [ports] and [threads]; [console] holds the arguments of the
    [appendPlainText] calls, oldest first, and [status] those of
    [showMessage]. *)
Record Monitor := {
  ser : option nat;
  reader : option nat;
  queue : list entry;
  stop_event : bool;
  ports : list Serial;
  threads : list SerialReader;
  port_box : list (list Z * option (list Z));
  port_box_index : nat;
  port_box_enabled : bool;
  baud_box_index : nat;
  connect_btn : list Z;
  timestamps_chk : bool;
  autoscroll_chk : bool;
  keep_text_chk : bool;
  console : list (list Z);
  console_cursor : nat;
  send_edit : list Z;
  eol_box_index : nat;
  status : list (list Z * Z)
}.

(** Field updates: [set_f v st] is [st] with field [f] replaced by [v]. *)

Definition set_ser (v : option nat) (st : Monitor) : Monitor :=
  {| ser := v; reader := reader st; queue := queue st;
     stop_event := stop_event st; ports := ports st; threads := threads st;
     port_box := port_box st; port_box_index := port_box_index st;
     port_box_enabled := port_box_enabled st;
     baud_box_index := baud_box_index st; connect_btn := connect_btn st;
     timestamps_chk := timestamps_chk st;
     autoscroll_chk := autoscroll_chk st; keep_text_chk := keep_text_chk st;
     console := console st; console_cursor := console_cursor st;
     send_edit := send_edit st; eol_box_index := eol_box_index st;
     status := status st |}.

Definition set_reader (v : option nat) (st : Monitor) : Monitor :=
  {| ser := ser st; reader := v; queue := queue st;
     stop_event := stop_event st; ports := ports st; threads := threads st;
     port_box := port_box st; port_box_index := port_box_index st;
     port_box_enabled := port_box_enabled st;
     baud_box_index := baud_box_index st; connect_btn := connect_btn st;
     timestamps_chk := timestamps_chk st;
     autoscroll_chk := autoscroll_chk st; keep_text_chk := keep_text_chk st;
     console := console st; console_cursor := console_cursor st;
     send_edit := send_edit st; eol_box_index := eol_box_index st;
     status := status st |}.

Definition set_queue (v : list entry) (st : Monitor) : Monitor :=
  {| ser := ser st; reader := reader st; queue := v;
     stop_event := stop_event st; ports := ports st; threads := threads st;
     port_box := port_box st; port_box_index := port_box_index st;
     port_box_enabled := port_box_enabled st;
     baud_box_index := baud_box_index st; connect_btn := connect_btn st;
     timestamps_chk := timestamps_chk st;
     autoscroll_chk := autoscroll_chk st; keep_text_chk := keep_text_chk st;
     console := console st; console_cursor := console_cursor st;
     send_edit := send_edit st; eol_box_index := eol_box_index st;
     status := status st |}.

Definition set_stop_event (v : bool) (st : Monitor) : Monitor :=
  {| ser := ser st; reader := reader st; queue := queue st; stop_event := v;
     ports := ports st; threads := threads st; port_box := port_box st;
     port_box_index := port_box_index st;
     port_box_enabled := port_box_enabled st;
     baud_box_index := baud_box_index st; connect_btn := connect_btn st;
     timestamps_chk := timestamps_chk st;
     autoscroll_chk := autoscroll_chk st; keep_text_chk := keep_text_chk st;
     console := console st; console_cursor := console_cursor st;
     send_edit := send_edit st; eol_box_index := eol_box_index st;
     status := status st |}.

Definition set_ports (v : list Serial) (st : Monitor) : Monitor :=
  {| ser := ser st; reader := reader st; queue := queue st;
     stop_event := stop_event st; ports := v; threads := threads st;
     port_box := port_box st; port_box_index := port_box_index st;
     port_box_enabled := port_box_enabled st;
     baud_box_index := baud_box_index st; connect_btn := connect_btn st;
     timestamps_chk := timestamps_chk st;
     autoscroll_chk := autoscroll_chk st; keep_text_chk := keep_text_chk st;
     console := console st; console_cursor := console_cursor st;
     send_edit := send_edit st; eol_box_index := eol_box_index st;
     status := status st |}.

Definition set_threads (v : list SerialReader) (st : Monitor) : Monitor :=
  {| ser := ser st; reader := reader st; queue := queue st;
     stop_event := stop_event st; ports := ports st; threads := v;
     port_box := port_box st; port_box_index := port_box_index st;
     port_box_enabled := port_box_enabled st;
     baud_box_index := baud_box_index st; connect_btn := connect_btn st;
     timestamps_chk := timestamps_chk st;
     autoscroll_chk := autoscroll_chk st; keep_text_chk := keep_text_chk st;
     console := console st; console_cursor := console_cursor st;
     send_edit := send_edit st; eol_box_index := eol_box_index st;
     status := status st |}.

Definition set_port_box (v : list (list Z * option (list Z))) (st : Monitor) : Monitor :=
  {| ser := ser st; reader := reader st; queue := queue st;
     stop_event := stop_event st; ports := ports st; threads := threads st;
     port_box := v; port_box_index := port_box_index st;
     port_box_enabled := port_box_enabled st;
     baud_box_index := baud_box_index st; connect_btn := connect_btn st;
     timestamps_chk := timestamps_chk st;
     autoscroll_chk := autoscroll_chk st; keep_text_chk := keep_text_chk st;
     console := console st; console_cursor := console_cursor st;
     send_edit := send_edit st; eol_box_index := eol_box_index st;
     status := status st |}.

Definition set_port_box_index (v : nat) (st : Monitor) : Monitor :=
  {| ser := ser st; reader := reader st; queue := queue st;
     stop_event := stop_event st; ports := ports st; threads := threads st;
     port_box := port_box st; port_box_index := v;
     port_box_enabled := port_box_enabled st;
     baud_box_index := baud_box_index st; connect_btn := connect_btn st;
     timestamps_chk := timestamps_chk st;
     autoscroll_chk := autoscroll_chk st; keep_text_chk := keep_text_chk st;
     console := console st; console_cursor := console_cursor st;
     send_edit := send_edit st; eol_box_index := eol_box_index st;
     status := status st |}.

Definition set_port_box_enabled (v : bool) (st : Monitor) : Monitor :=
  {| ser := ser st; reader := reader st; queue := queue st;
     stop_event := stop_event st; ports := ports st; threads := threads st;
     port_box := port_box st; port_box_index := port_box_index st;
     port_box_enabled := v; baud_box_index := baud_box_index st;
     connect_btn := connect_btn st; timestamps_chk := timestamps_chk st;
     autoscroll_chk := autoscroll_chk st; keep_text_chk := keep_text_chk st;
     console := console st; console_cursor := console_cursor st;
     send_edit := send_edit st; eol_box_index := eol_box_index st;
     status := status st |}.

Definition set_baud_box_index (v : nat) (st : Monitor) : Monitor :=
  {| ser := ser st; reader := reader st; queue := queue st;
     stop_event := stop_event st; ports := ports st; threads := threads st;
     port_box := port_box st; port_box_index := port_box_index st;
     port_box_enabled := port_box_enabled st; baud_box_index := v;
     connect_btn := connect_btn st; timestamps_chk := timestamps_chk st;
     autoscroll_chk := autoscroll_chk st; keep_text_chk := keep_text_chk st;
     console := console st; console_cursor := console_cursor st;
     send_edit := send_edit st; eol_box_index := eol_box_index st;
     status := status st |}.

Definition set_connect_btn (v : list Z) (st : Monitor) : Monitor :=
  {| ser := ser st; reader := reader st; queue := queue st;
     stop_event := stop_event st; ports := ports st; threads := threads st;
     port_box := port_box st; port_box_index := port_box_index st;
     port_box_enabled := port_box_enabled st;
     baud_box_index := baud_box_index st; connect_btn := v;
     timestamps_chk := timestamps_chk st;
     autoscroll_chk := autoscroll_chk st; keep_text_chk := keep_text_chk st;
     console := console st; console_cursor := console_cursor st;
     send_edit := send_edit st; eol_box_index := eol_box_index st;
     status := status st |}.

Definition set_timestamps_chk (v : bool) (st : Monitor) : Monitor :=
  {| ser := ser st; reader := reader st; queue := queue st;
     stop_event := stop_event st; ports := ports st; threads := threads st;
     port_box := port_box st; port_box_index := port_box_index st;
     port_box_enabled := port_box_enabled st;
     baud_box_index := baud_box_index st; connect_btn := connect_btn st;
     timestamps_chk := v; autoscroll_chk := autoscroll_chk st;
     keep_text_chk := keep_text_chk st; console := console st;
     console_cursor := console_cursor st; send_edit := send_edit st;
     eol_box_index := eol_box_index st; status := status st |}.

Definition set_autoscroll_chk (v : bool) (st : Monitor) : Monitor :=
  {| ser := ser st; reader := reader st; queue := queue st;
     stop_event := stop_event st; ports := ports st; threads := threads st;
     port_box := port_box st; port_box_index := port_box_index st;
     port_box_enabled := port_box_enabled st;
     baud_box_index := baud_box_index st; connect_btn := connect_btn st;
     timestamps_chk := timestamps_chk st; autoscroll_chk := v;
     keep_text_chk := keep_text_chk st; console := console st;
     console_cursor := console_cursor st; send_edit := send_edit st;
     eol_box_index := eol_box_index st; status := status st |}.

Definition set_keep_text_chk (v : bool) (st : Monitor) : Monitor :=
  {| ser := ser st; reader := reader st; queue := queue st;
     stop_event := stop_event st; ports := ports st; threads := threads st;
     port_box := port_box st; port_box_index := port_box_index st;
     port_box_enabled := port_box_enabled st;
     baud_box_index := baud_box_index st; connect_btn := connect_btn st;
     timestamps_chk := timestamps_chk st;
     autoscroll_chk := autoscroll_chk st; keep_text_chk := v;
     console := console st; console_cursor := console_cursor st;
     send_edit := send_edit st; eol_box_index := eol_box_index st;
     status := status st |}.

Definition set_console (v : list (list Z)) (st : Monitor) : Monitor :=
  {| ser := ser st; reader := reader st; queue := queue st;
     stop_event := stop_event st; ports := ports st; threads := threads st;
     port_box := port_box st; port_box_index := port_box_index st;
     port_box_enabled := port_box_enabled st;
     baud_box_index := baud_box_index st; connect_btn := connect_btn st;
     timestamps_chk := timestamps_chk st;
     autoscroll_chk := autoscroll_chk st; keep_text_chk := keep_text_chk st;
     console := v; console_cursor := console_cursor st;
     send_edit := send_edit st; eol_box_index := eol_box_index st;
     status := status st |}.

Definition set_console_cursor (v : nat) (st : Monitor) : Monitor :=
  {| ser := ser st; reader := reader st; queue := queue st;
     stop_event := stop_event st; ports := ports st; threads := threads st;
     port_box := port_box st; port_box_index := port_box_index st;
     port_box_enabled := port_box_enabled st;
     baud_box_index := baud_box_index st; connect_btn := connect_btn st;
     timestamps_chk := timestamps_chk st;
     autoscroll_chk := autoscroll_chk st; keep_text_chk := keep_text_chk st;
     console := console st; console_cursor := v; send_edit := send_edit st;
     eol_box_index := eol_box_index st; status := status st |}.

Definition set_send_edit (v : list Z) (st : Monitor) : Monitor :=
  {| ser := ser st; reader := reader st; queue := queue st;
     stop_event := stop_event st; ports := ports st; threads := threads st;
     port_box := port_box st; port_box_index := port_box_index st;
     port_box_enabled := port_box_enabled st;
     baud_box_index := baud_box_index st; connect_btn := connect_btn st;
     timestamps_chk := timestamps_chk st;
     autoscroll_chk := autoscroll_chk st; keep_text_chk := keep_text_chk st;
     console := console st; console_cursor := console_cursor st;
     send_edit := v; eol_box_index := eol_box_index st;
     status := status st |}.

Definition set_eol_box_index (v : nat) (st : Monitor) : Monitor :=
  {| ser := ser st; reader := reader st; queue := queue st;
     stop_event := stop_event st; ports := ports st; threads := threads st;
     port_box := port_box st; port_box_index := port_box_index st;
     port_box_enabled := port_box_enabled st;
     baud_box_index := baud_box_index st; connect_btn := connect_btn st;
     timestamps_chk := timestamps_chk st;
     autoscroll_chk := autoscroll_chk st; keep_text_chk := keep_text_chk st;
     console := console st; console_cursor := console_cursor st;
     send_edit := send_edit st; eol_box_index := v; status := status st |}.

Definition set_status (v : list (list Z * Z)) (st : Monitor) : Monitor :=
  {| ser := ser st; reader := reader st; queue := queue st;
     stop_event := stop_event st; ports := ports st; threads := threads st;
     port_box := port_box st; port_box_index := port_box_index st;
     port_box_enabled := port_box_enabled st;
     baud_box_index := baud_box_index st; connect_btn := connect_btn st;
     timestamps_chk := timestamps_chk st;
     autoscroll_chk := autoscroll_chk st; keep_text_chk := keep_text_chk st;
     console := console st; console_cursor := console_cursor st;
     send_edit := send_edit st; eol_box_index := eol_box_index st;
     status := v |}.

(** *** What the environment decides *)

Inductive open_outcome := OpenOk | OpenFails (e : exn).
Inductive read_outcome := ReadLine (line : list Z) | ReadFails (e : exn).
Inductive join_outcome := JoinExited | JoinTimedOut | JoinFails (e : exn).
Inductive close_outcome := CloseOk | CloseFails (e : exn).
Inductive write_outcome := WriteOk | WriteFails (e : exn).
Inductive file_outcome :=
| FileOk
| FileOpenFails (e : exn)
| FileWriteFails (e : exn).

(** *** Widgets *)

Definition baud_items : list (list Z) :=
  map lit ["300"; "600"; "1200"; "2400"; "4800"; "9600"; "19200"; "38400";
           "57600"; "115200"; "230400"; "460800"; "921600"]%string.

(** The four labels of the EOL selector; the last three are spelled with a
    backslash. *)
Definition eol_items : list (list Z) :=
  map lit ["None"; "\n"; "\r"; "\r\n"]%string.

(** [box.currentText()] of a selector over [items]. *)
Definition currentText (items : list (list Z)) (i : nat) : list Z :=
  default [] (items !! i).

Definition port_box_currentText (st : Monitor) : list Z :=
  currentText (map fst (port_box st)) (port_box_index st).

(** [port_box.currentData()]: the item's [userData], [None] without one. *)
Definition port_box_currentData (st : Monitor) : option (list Z) :=
  port_box st !! port_box_index st ≫= snd.

Definition appendPlainText (line : list Z) (st : Monitor) : Monitor :=
  set_console (console st ++ [line]) st.

Definition showMessage (msg : list Z) (ms : Z) (st : Monitor) : Monitor :=
  set_status (status st ++ [(msg, ms)]) st.

(** [cursor.movePosition(cursor.End); console.setTextCursor(cursor)]. *)
Definition cursor_to_end (st : Monitor) : Monitor :=
  set_console_cursor (length (console st)) st.

(** [console.toPlainText()]: the text of the document that the calls of
    [appendPlainText] have built. *)
Definition toPlainText (st : Monitor) : list Z := Qt.plain_text (console st).

(** *** The stores *)

Definition port_is_open (h : nat) (st : Monitor) : bool :=
  match ports st !! h with Some p => is_open p | None => false end.

Definition thread_is_alive (t : nat) (st : Monitor) : bool :=
  match threads st !! t with Some th => is_alive th | None => false end.

(** [self.ser and self.ser.is_open]. *)
Definition connected (st : Monitor) : bool :=
  match ser st with Some h => port_is_open h st | None => false end.

Definition set_is_open (b : bool) (p : Serial) : Serial :=
  {| device := device p; baudrate := baudrate p; timeout_ms := timeout_ms p;
     is_open := b; tx := tx p |}.

Definition add_tx (data : list Z) (p : Serial) : Serial :=
  {| device := device p; baudrate := baudrate p; timeout_ms := timeout_ms p;
     is_open := is_open p; tx := tx p ++ [data] |}.

Definition set_is_alive (b : bool) (th : SerialReader) : SerialReader :=
  {| reader_ser := reader_ser th; is_alive := b |}.

Definition alter_port (f : Serial → Serial) (h : nat) (st : Monitor)
  : Monitor := set_ports (alter f h (ports st)) st.

Definition alter_thread (f : SerialReader → SerialReader) (t : nat)
  (st : Monitor) : Monitor := set_threads (alter f t (threads st)) st.

(** Number of reader threads alive. *)
Definition alive_count (st : Monitor) : nat :=
  length (filter (λ th, is_alive th = true) (threads st)).

(** *** [SerialReader.run] *)

(** [out_queue.put(e)]. *)
Definition put (e : entry) (st : Monitor) : Monitor :=
  set_queue (queue st ++ [e]) st.

(** [ser.readline()]: pyserial refuses a handle that is not open, otherwise
    the outcome is the environment's. *)
Definition PORT_NOT_OPEN : list Z :=
  lit "Attempting to use a port that is not open".

Definition readline (r : read_outcome) (p : Serial) : read_outcome :=
  if is_open p then r else ReadFails (Exception PORT_NOT_OPEN).

(** [line.decode(errors="replace")], with the [except] fallback
    [str(line)]. *)
Definition decode_line (line : list Z) : list Z :=
  match Utf8.decode Utf8.Replace line with
  | Some text => text
  | None => str_of_bytes line
  end.

(** One pass of the [while not self.stop_event.is_set()] loop of thread
    [t], from the test of the flag, to the end of the body.  A thread that
    is not alive does nothing. *)
Definition run_iter (t : nat) (r : read_outcome) (now : Clock.datetime)
  (st : Monitor) : Monitor :=
  match threads st !! t with
  | Some th =>
      if negb (is_alive th) then st
      else if stop_event st then alter_thread (set_is_alive false) t st
      else
        match ports st !! reader_ser th with
        | Some p =>
            match readline r p with
            | ReadLine line =>
                if truthy line then
                  let text := decode_line line in
                  let ts := Clock.timestamp now in
                  put (Some ts, text) st
                else st
            | ReadFails e =>
                alter_thread (set_is_alive false) t
                  (put (None, lit "[ERROR] " ++ str_of_exn e ++ [LF]) st)
            end
        | None => st
        end
  | None => st
  end.

(** [run]: the passes of the loop, one per answer of the environment. *)
Fixpoint run (t : nat) (answers : list (read_outcome * Clock.datetime))
  (st : Monitor) : Monitor :=
  match answers with
  | [] => st
  | (r, now) :: rest => run t rest (run_iter t r now st)
  end.

(** *** [SerialMonitor] *)

(** [refresh_ports], over the ports [comports()] found, each a device and
    a description. *)
Definition port_item (p : list Z * list Z) : list Z * option (list Z) :=
  (fst p ++ [32; 0x2014; 32]%Z ++ snd p, Some (fst p)).

Definition NO_PORTS : list Z := lit "(No ports found)".

Definition found_items (found : list (list Z * list Z))
  : list (list Z * option (list Z)) :=
  match found with
  | [] => [(NO_PORTS, None)]
  | _ :: _ => map port_item found
  end.

Definition refresh_ports (found : list (list Z * list Z)) (st : Monitor)
  : Monitor :=
  set_port_box_index 0 (set_port_box (found_items found) st).

(** The window [__init__] has built before its closing [refresh_ports]
    call. *)
Definition blank : Monitor :=
  {| ser := None; reader := None; queue := []; stop_event := false;
     ports := []; threads := [];
     port_box := []; port_box_index := 0; port_box_enabled := true;
     baud_box_index := 9;
     connect_btn := lit "Connect";
     timestamps_chk := true; autoscroll_chk := true; keep_text_chk := false;
     console := []; console_cursor := 0;
     send_edit := []; eol_box_index := 0; status := [] |}.

(** The window after [__init__], before any event. *)
Definition init (found : list (list Z * list Z)) : Monitor :=
  refresh_ports found blank.

Definition append_text (text : list Z) (st : Monitor) : Monitor :=
  let st := appendPlainText (rstrip text) st in
  if autoscroll_chk st then cursor_to_end st else st.

(** The device name [connect_serial] opens. *)
Definition chosen_device (st : Monitor) : list Z :=
  match port_box_currentData st with
  | Some d =>
      if negb (truthy d) || startswith_paren d
      then split_space_head (port_box_currentText st)
      else d
  | None => split_space_head (port_box_currentText st)
  end.

Definition VALUE_ERROR (s : list Z) : exn :=
  Exception (lit "invalid literal for int() with base 10: '" ++ s ++ lit "'").

Definition connect_serial (o : open_outcome) (st : Monitor)
  : result Monitor :=
  if (length (port_box st) =? 0)%nat then
    Returns (append_text (lit "[INFO] No ports to open." ++ [LF]) st)
  else
    let dev := chosen_device st in
    let text := currentText baud_items (baud_box_index st) in
    match int_of_str text with
    | None => Raises (VALUE_ERROR text) st
    | Some baud =>
        match o with
        | OpenFails e =>
            let st := append_text
              (lit "[ERROR] Could not open " ++ dev ++ lit " @ "
               ++ str_of_int baud ++ lit ": " ++ str_of_exn e ++ [LF]) st in
            Returns
              (showMessage (lit "Failed to connect: " ++ str_of_exn e) 5000 st)
        | OpenOk =>
            let h := length (ports st) in
            let p := {| device := dev; baudrate := baud; timeout_ms := 200;
                        is_open := true; tx := [] |} in
            let st := set_ser (Some h) (set_ports (ports st ++ [p]) st) in
            let st := set_stop_event false st in
            let t := length (threads st) in
            let th := {| reader_ser := h; is_alive := false |} in
            let st := set_reader (Some t)
                        (set_threads (threads st ++ [th]) st) in
            let st := alter_thread (set_is_alive true) t st in
            let st := set_connect_btn (lit "Disconnect") st in
            let st := set_port_box_enabled false st in
            Returns
              (showMessage (lit "Connected: " ++ dev ++ lit " @ "
                            ++ str_of_int baud) 3000 st)
        end
    end.

(** The first [try] of [disconnect_serial]: set the flag, then join the
    reader for at most a second if it is alive.  The join returns because
    the reader has exited, or because the second is over, or it raises. *)
Definition stop_and_join (j : join_outcome) (st : Monitor)
  : result Monitor :=
  let st := set_stop_event true st in
  match reader st with
  | Some t =>
      if thread_is_alive t st then
        match j with
        | JoinExited => Returns (alter_thread (set_is_alive false) t st)
        | JoinTimedOut => Returns st
        | JoinFails e => Raises e st
        end
      else Returns st
  | None => Returns st
  end.

(** The second [try]: close the handle if there is one and it is open. *)
Definition close_port (c : close_outcome) (st : Monitor) : result Monitor :=
  match ser st with
  | Some h =>
      if port_is_open h st then
        match c with
        | CloseOk => Returns (alter_port (set_is_open false) h st)
        | CloseFails e => Raises e st
        end
      else Returns st
  | None => Returns st
  end.

Definition disconnect_serial (j : join_outcome) (c : close_outcome)
  (st : Monitor) : result Monitor :=
  let st := state_of (except_pass (stop_and_join j st)) in
  let st := state_of (except_pass (close_port c st)) in
  let st := set_ser None (set_reader None st) in
  let st := set_connect_btn (lit "Connect") st in
  let st := set_port_box_enabled true st in
  Returns (showMessage (lit "Disconnected") 2000 st).

(** The calls [disconnect_serial] makes on the objects it shares with the
    reader thread and the operating system, written down as it makes
    them. *)
Inductive call :=
| Event_set
| Thread_is_alive (t : nat)
| Thread_join (t : nat) (timeout_ms : Z)
| Serial_is_open (h : nat)
| Serial_close (h : nat).

(** A computation that also writes down its calls. *)
Definition traced (A : Type) : Type := result A * list call.

Definition stop_and_join_traced (j : join_outcome) (st : Monitor)
  : traced Monitor :=
  let log := [Event_set] in
  let st := set_stop_event true st in
  match reader st with
  | Some t =>
      let log := log ++ [Thread_is_alive t] in
      if thread_is_alive t st then
        let log := log ++ [Thread_join t 1000] in
        match j with
        | JoinExited => (Returns (alter_thread (set_is_alive false) t st), log)
        | JoinTimedOut => (Returns st, log)
        | JoinFails e => (Raises e st, log)
        end
      else (Returns st, log)
  | None => (Returns st, log)
  end.

Definition close_port_traced (c : close_outcome) (st : Monitor)
  : traced Monitor :=
  match ser st with
  | Some h =>
      let log := [Serial_is_open h] in
      if port_is_open h st then
        let log := log ++ [Serial_close h] in
        match c with
        | CloseOk => (Returns (alter_port (set_is_open false) h st), log)
        | CloseFails e => (Raises e st, log)
        end
      else (Returns st, log)
  | None => (Returns st, [])
  end.

(** [disconnect_serial] with its calls: the two [try] blocks one after the
    other, each keeping what it wrote down when it is left by an
    exception. *)
Definition disconnect_serial_traced (j : join_outcome) (c : close_outcome)
  (st : Monitor) : traced Monitor :=
  let '(r1, log1) := stop_and_join_traced j st in
  let st := state_of (except_pass r1) in
  let '(r2, log2) := close_port_traced c st in
  let st := state_of (except_pass r2) in
  let st := set_ser None (set_reader None st) in
  let st := set_connect_btn (lit "Connect") st in
  let st := set_port_box_enabled true st in
  (Returns (showMessage (lit "Disconnected") 2000 st), log1 ++ log2).

Definition toggle_connection (o : open_outcome) (j : join_outcome)
  (c : close_outcome) (st : Monitor) : result Monitor :=
  if connected st then disconnect_serial j c st else connect_serial o st.

(** [queue.get_nowait()]: [None] is [queue.Empty]. *)
Definition get_nowait (q : list entry) : option (entry * list entry) :=
  match q with
  | [] => None
  | e :: q' => Some (e, q')
  end.

(** The line [flush_queue] shows for an entry. *)
Definition format_entry (timestamps : bool) (e : entry) : list Z :=
  let '(ts, text) := e in
  if timestamps && truthy_opt ts then
    lit "[" ++ default [] ts ++ lit "] " ++ rstrip text
  else rstrip text.

(** The [while True] loop of [flush_queue], over the entries queued; the
    second component is the [appended] flag. *)
Fixpoint drain (q : list entry) (st : Monitor) (appended : bool)
  : Monitor * bool :=
  match q with
  | [] => (set_queue [] st, appended)
  | e :: q' =>
      let st := set_queue q' st in
      let st := appendPlainText (format_entry (timestamps_chk st) e) st in
      drain q' st true
  end.

Definition flush_queue (st : Monitor) : Monitor :=
  let '(st, appended) := drain (queue st) st false in
  if appended && autoscroll_chk st then cursor_to_end st else st.

(** The suffix [send_text] adds for the selected EOL label. *)
Definition eol_suffix (eol : list Z) : list Z :=
  if bool_decide (eol = lit "\n") then [LF]
  else if bool_decide (eol = lit "\r") then [CR]
  else if bool_decide (eol = lit "\r\n") then [CR; LF]
  else [].

(** The same suffix by position in the selector. *)
Definition eol_bytes (i : nat) : list Z :=
  match i with
  | 1 => [LF]
  | 2 => [CR]
  | 3 => [CR; LF]
  | _ => []
  end.

Definition write_ok (w : write_outcome) : bool :=
  match w with WriteOk => true | WriteFails _ => false end.

(** The argument [send_text] passes to [ser.write]; with
    [errors="replace"] the encoder has no failing case. *)
Definition send_data (st : Monitor) : list Z :=
  let eol := currentText eol_items (eol_box_index st) in
  let data := send_edit st ++ eol_suffix eol in
  match Utf8.encode Utf8.Replace data with
  | inr bs => bs
  | inl _ => []
  end.

Definition send_text (w : write_outcome) (st : Monitor) : result Monitor :=
  if negb (connected st) then
    Returns (showMessage (lit "Not connected") 2000 st)
  else
    match w with
    | WriteOk =>
        let st :=
          match ser st with
          | Some h => alter_port (add_tx (send_data st)) h st
          | None => st
          end in
        Returns (if negb (keep_text_chk st) then set_send_edit [] st else st)
    | WriteFails e =>
        Returns
          (append_text (lit "[ERROR] send failed: " ++ str_of_exn e ++ [LF]) st)
    end.

Definition clear_log (st : Monitor) : Monitor :=
  set_console_cursor 0 (set_console [] st).

(** What a text file opened with [open(path, "w", encoding="utf-8")] stores
    for [text].  The file is in text mode with the default [newline=None]
    and [errors="strict"]: on writing, each line feed becomes the
    platform's [os.linesep], and the result is encoded strictly. *)
Definition file_bytes (linesep : list Z) (text : list Z)
  : Utf8.encode_error + list Z :=
  Utf8.encode Utf8.Strict (replace_char LF linesep text).

(** [save_log]: [path] is what the file dialog returned (empty when it was
    cancelled), [files] the file system.  Opening for writing creates or
    truncates the file; the text is encoded before any byte is written, so
    a text that cannot be encoded leaves the file empty, as does a write
    that the system refuses. *)
Definition save_failed (msg : list Z) (st : Monitor) : Monitor :=
  showMessage (lit "Save failed: " ++ msg) 5000 st.

Definition save_log (path : list Z) (linesep : list Z) (io : file_outcome)
  (st : Monitor) (files : gmap (list Z) (list Z))
  : Monitor * gmap (list Z) (list Z) :=
  if negb (truthy path) then (st, files)
  else
    match io with
    | FileOpenFails e => (save_failed (str_of_exn e) st, files)
    | FileWriteFails e =>
        match file_bytes linesep (toPlainText st) with
        | inl err =>
            (save_failed (Utf8.str_of_encode_error err) st,
             <[path := []]> files)
        | inr _ => (save_failed (str_of_exn e) st, <[path := []]> files)
        end
    | FileOk =>
        match file_bytes linesep (toPlainText st) with
        | inl err =>
            (save_failed (Utf8.str_of_encode_error err) st,
             <[path := []]> files)
        | inr bs =>
            (showMessage (lit "Saved: " ++ path) 3000 st,
             <[path := bs]> files)
        end
    end.

(** *** Runs of the application *)

(** What can happen next: the user clicks the connect button, Send, Clear
    or Refresh, types in the send box, picks an item in a selector or
    ticks a check box; a reader makes a pass of its loop; the poll timer
    fires.  The port selector takes no choice while it is disabled. *)
Inductive event :=
| Click_connect (o : open_outcome) (j : join_outcome) (c : close_outcome)
| Click_send (w : write_outcome)
| Click_clear
| Click_refresh (found : list (list Z * list Z))
| Type_text (text : list Z)
| Select_port (i : nat)
| Select_baud (i : nat)
| Select_eol (i : nat)
| Check_timestamps (b : bool)
| Check_autoscroll (b : bool)
| Check_keep_text (b : bool)
| Reader_pass (t : nat) (r : read_outcome) (now : Clock.datetime)
| Timer_tick.

Definition step (st : Monitor) (ev : event) : Monitor :=
  match ev with
  | Click_connect o j c => state_of (toggle_connection o j c st)
  | Click_send w => state_of (send_text w st)
  | Click_clear => clear_log st
  | Click_refresh found => refresh_ports found st
  | Type_text text => set_send_edit text st
  | Select_port i =>
      if port_box_enabled st then set_port_box_index i st else st
  | Select_baud i => set_baud_box_index i st
  | Select_eol i => set_eol_box_index i st
  | Check_timestamps b => set_timestamps_chk b st
  | Check_autoscroll b => set_autoscroll_chk b st
  | Check_keep_text b => set_keep_text_chk b st
  | Reader_pass t r now => run_iter t r now st
  | Timer_tick => flush_queue st
  end.

Definition run_events (evs : list event) (st : Monitor) : Monitor :=
  fold_left step evs st.

(** The producer and the consumer of the queue, interleaved: passes of
    readers and ticks of the timer. *)
Inductive activity :=
| Pass (t : nat) (r : read_outcome) (now : Clock.datetime)
| Tick.

Definition event_of (a : activity) : event :=
  match a with
  | Pass t r now => Reader_pass t r now
  | Tick => Timer_tick
  end.

(** The entries an activity puts on the queue of [st]: what its pass adds
    behind the entries already there. *)
Definition put_by (a : activity) (st : Monitor) : list entry :=
  match a with
  | Pass t r now => drop (length (queue st)) (queue (run_iter t r now st))
  | Tick => []
  end.

(** The entries put during a run of activities from [st], in the order of
    the [put] calls. *)
Fixpoint produced (acts : list activity) (st : Monitor) : list entry :=
  match acts with
  | [] => []
  | a :: rest => put_by a st ++ produced rest (step st (event_of a))
  end.

(** The answers of the environment that let a teardown complete: the
    join saw the reader exit, the close went through. *)
Definition join_exited (j : join_outcome) : bool :=
  match j with JoinExited => true | _ => false end.

Definition close_ok (c : close_outcome) : bool :=
  match c with CloseOk => true | CloseFails _ => false end.

Definition joins_exit (evs : list event) : bool :=
  forallb (λ ev, match ev with
                 | Click_connect _ j _ => join_exited j
                 | _ => true
                 end) evs.

Definition closes_ok (evs : list event) : bool :=
  forallb (λ ev, match ev with
                 | Click_connect _ _ c => close_ok c
                 | _ => true
                 end) evs.

(** Number of handles open. *)
Definition open_count (st : Monitor) : nat :=
  length (filter (λ p, is_open p = true) (ports st)).

(** What the controller's references say about the stores: a referenced
    handle is open and a reader is referenced only with a handle; only the
    referenced reader is alive; only the referenced handle is open. *)
Definition refs_wf (st : Monitor) : Prop :=
  (∀ h, ser st = Some h → port_is_open h st = true)
  ∧ (ser st = None → reader st = None).

Definition only_reader_alive (st : Monitor) : Prop :=
  ∀ t, thread_is_alive t st = true → reader st = Some t.

Definition only_handle_open (st : Monitor) : Prop :=
  ∀ h, port_is_open h st = true → ser st = Some h.

(** [st'] has the references and open handles of [st], and no thread alive
    that was not alive in [st]. *)
Definition link_kept (st st' : Monitor) : Prop :=
  ser st' = ser st ∧ reader st' = reader st
  ∧ (∀ h, port_is_open h st' = port_is_open h st)
  ∧ (∀ t, thread_is_alive t st' = true → thread_is_alive t st = true).

(** A console line that is a bare time-stamp prefix ["[ts] "]. *)
Definition bare_stamp (line : list Z) : Prop :=
  ∃ ts, line = lit "[" ++ ts ++ lit "] ".

(** A console line as the program writes them: no trailing white space,
    unless it is a bare time-stamp prefix. *)
Definition stripped_line (line : list Z) : Prop :=
  ends_in_space line = false ∨ bare_stamp line.

(** *** [main] *)

(** [main]: build the window, run the event loop ([app.exec()], here the
    events [evs], returning [ret]), then tear the connection down if the
    handle is still open, and exit with [ret]. *)
Definition main (found : list (list Z * list Z)) (evs : list event)
  (j : join_outcome) (c : close_outcome) (ret : Z) : Z * Monitor :=
  let win := run_events evs (init found) in
  let win :=
    if connected win then state_of (disconnect_serial j c win) else win in
  (ret, win).

(** *** Vocabulary of the further properties *)

(** An octet. *)
Definition octet (b : Z) : Prop := (0 ≤ b ≤ 255)%Z.

(** The two kinds of queue entry: a received line with the stamp of some
    instant, and the reader's error entry for some exception. *)
Definition reader_entry (e : entry) : Prop :=
  match e with
  | (Some ts, text) =>
      ∃ now line, ts = Clock.timestamp now ∧ truthy line = true
                  ∧ text = decode_line line
  | (None, text) => ∃ err, text = lit "[ERROR] " ++ str_of_exn err ++ [LF]
  end.

(** No click on Clear among the events. *)
Definition no_clear (evs : list event) : bool :=
  forallb (λ ev, match ev with Click_clear => false | _ => true end) evs.

(** The clicks on Send whose write goes through, and their number. *)
Definition is_send (ev : event) : bool :=
  match ev with Click_send WriteOk => true | _ => false end.

Fixpoint sends (evs : list event) : nat :=
  match evs with
  | [] => 0
  | ev :: evs => (if is_send ev then 1 else 0) + sends evs
  end.

Definition open_ok (o : open_outcome) : bool :=
  match o with OpenOk => true | OpenFails _ => false end.

(** What the widgets show for a controller that holds, or does not hold, a
    handle. *)
Definition button_label (held : bool) : list Z :=
  if held then lit "Disconnect" else lit "Connect".

(** Reader [t] reads from handle [t]: threads and handles are created in
    pairs. *)
Definition paired (st : Monitor) : Prop :=
  length (threads st) = length (ports st)
  ∧ (∀ t th, threads st !! t = Some th → reader_ser th = t)
  ∧ reader st = ser st.

(** The widgets agree with the controller: the handle it references is
    open, the button and the port selector say whether it holds one, and
    the stop flag is clear while it does. *)
Definition widgets_agree (st : Monitor) : Prop :=
  connected st = bool_decide (is_Some (ser st))
  ∧ connect_btn st = button_label (bool_decide (is_Some (ser st)))
  ∧ port_box_enabled st = negb (bool_decide (is_Some (ser st)))
  ∧ (is_Some (ser st) → stop_event st = false).

End SerialMonitor.

(** ** A concrete session *)

Module Scenario.
Import SerialMonitor.

(** One USB adapter is plugged in. *)
Definition found : list (list Z * list Z) :=
  [(Py.lit "COM3", Py.lit "USB Serial Device")].

Definition noon : Clock.datetime :=
  {| Clock.hour := 12; Clock.minute := 0; Clock.second := 0;
     Clock.microsecond := 0 |}.

Definition io_error : exn := Exception (Py.lit "[Errno 5] Input/output error").

(** The window right after a successful click on Connect. *)
Definition online : Monitor :=
  run_events [Click_connect OpenOk JoinExited CloseOk] (init found).

(** The same, with ["AT"] typed in the send box and a given EOL choice. *)
Definition typing_AT (eol : nat) : Monitor :=
  run_events [Type_text (Py.lit "AT"); Select_eol eol] online.

(** The window after the line ["hi\n"] arrived at noon and was shown, and
    after a second line. *)
Definition shown_hi : Monitor :=
  run_events
    [Reader_pass 0 (ReadLine (Py.lit "hi" ++ [Py.LF])) noon; Timer_tick]
    online.

Definition shown_hi_ok : Monitor :=
  run_events
    [Reader_pass 0 (ReadLine (Py.lit "ok" ++ [Py.LF])) noon; Timer_tick]
    shown_hi.

(** The window after a line with a no-break space, ["a\u00A0b\n"] in
    UTF-8, arrived at noon and was shown. *)
Definition shown_nbsp : Monitor :=
  run_events
    [Reader_pass 0 (ReadLine [0x61; 0xC2; 0xA0; 0x62; 0x0A]%Z) noon;
     Timer_tick]
    online.

Definition log_txt : list Z := Py.lit "serial_log.txt".

(** The window after a disconnect whose join timed out: reader 0 is still
    alive and the stop flag is set. *)
Definition stopping : Monitor :=
  run_events [Click_connect OpenOk JoinTimedOut CloseOk] online.

(** The window after that disconnect and a second connect: reader 0 is
    still alive, the stop flag is clear again and handle 0 is closed. *)
Definition stale : Monitor :=
  run_events [Click_connect OpenOk JoinExited CloseOk] stopping.

(** The window after a clean disconnect, and what a user may do next:
    connect again, type ["AT"] and send it. *)
Definition offline : Monitor :=
  run_events [Click_connect OpenOk JoinExited CloseOk] online.

Definition reconnect_and_send : list event :=
  [Click_connect OpenOk JoinExited CloseOk; Type_text (Py.lit "AT");
   Click_send WriteOk].

(** A session: connect, receive a line, show it, send ["AT"]. *)
Definition session : list event :=
  [Click_connect OpenOk JoinExited CloseOk;
   Reader_pass 0 (ReadLine (Py.lit "hi" ++ [Py.LF])) noon; Timer_tick;
   Type_text (Py.lit "AT"); Click_send WriteOk].

(** The open handle of [online], before and after sending. *)
Definition com3 : Serial :=
  {| device := Py.lit "COM3"; baudrate := 115200; timeout_ms := 200;
     is_open := true; tx := [] |}.

End Scenario.

(** * Properties *)

Import SerialMonitor.

(** ** Strings *)

Section StringFacts.
Local Open Scope Z_scope.

Lemma rstrip_nil (s : list Z) :
  Py.rstrip s = [] ↔ forallb Py.isspace s = true.
Proof.
  induction s as [|c s IH]; simpl; [done|].
  destruct (Py.rstrip s) as [|r rs] eqn:E.
  - destruct (Py.isspace c); simpl; [tauto|]. split; [done|]. done.
  - split; [done|]. intros [_ H]%andb_true_iff. apply IH in H. done.
Qed.

Lemma rstrip_nil_b (s : list Z) :
  bool_decide (Py.rstrip s = []) = forallb Py.isspace s.
Proof.
  destruct (forallb Py.isspace s) eqn:E.
  - apply bool_decide_eq_true, rstrip_nil, E.
  - apply bool_decide_eq_false. intros H%rstrip_nil. congruence.
Qed.

Lemma last_cons_cons {A} (a b : A) (l : list A) :
  last (a :: b :: l) = last (b :: l).
Proof. done. Qed.

Lemma rstrip_last (s : list Z) : Py.ends_in_space (Py.rstrip s) = false.
Proof.
  unfold Py.ends_in_space.
  induction s as [|c s IH]; simpl; [done|].
  destruct (Py.rstrip s) as [|r rs] eqn:E.
  - destruct (Py.isspace c) eqn:Hc; simpl; [done|]. by rewrite Hc.
  - by rewrite last_cons_cons.
Qed.

(** [rstrip] only removes a suffix, and that suffix is white space. *)
Lemma rstrip_suffix (s : list Z) :
  ∃ w, s = Py.rstrip s ++ w ∧ forallb Py.isspace w = true.
Proof.
  induction s as [|c s (w & Hs & Hw)]; simpl; [by exists []|].
  destruct (Py.rstrip s) as [|r rs] eqn:E.
  - destruct (Py.isspace c) eqn:Hc.
    + exists (c :: s). split; [done|]. simpl. rewrite Hc. simpl.
      by apply rstrip_nil.
    + exists w. simpl in *. split; [congruence|done].
  - exists w. split; [|done]. simpl in *. congruence.
Qed.

Lemma ends_in_space_app (a b : list Z) :
  b ≠ [] → Py.ends_in_space (a ++ b) = Py.ends_in_space b.
Proof.
  intros Hb. unfold Py.ends_in_space.
  destruct b as [|x b] using rev_ind; [done|].
  by rewrite app_assoc, !last_snoc.
Qed.

Lemma replace_char_id (c : Z) (s : list Z) : Py.replace_char c [c] s = s.
Proof.
  induction s as [|d s IH]; simpl; [done|].
  destruct (Z.eqb_spec d c); simpl; congruence.
Qed.

End StringFacts.

(** ** The codec *)

Section CodecFacts.
Local Open Scope Z_scope.
Import Utf8.

(** Linear arithmetic with division and remainder by constants. *)
Ltac divmod_lia := Z.div_mod_to_equations; lia.

(** Case analysis on every comparison in the goal, closing the impossible
    branches by arithmetic. *)
Ltac split_compare :=
  repeat (match goal with
          | |- context [Z.ltb ?a ?b] => destruct (Z.ltb_spec a b)
          | |- context [Z.leb ?a ?b] => destruct (Z.leb_spec a b)
          | |- context [Z.eqb ?a ?b] => destruct (Z.eqb_spec a b)
          end; simpl; try (exfalso; divmod_lia)).

Lemma encode_replace_cons (c : Z) (s : list Z) :
  encode_replace (c :: s) = replace_char_bytes c ++ encode_replace s.
Proof. done. Qed.

(** With [errors="replace"] encoding never raises. *)
Lemma encode_from_replace (pos : nat) (s : list Z) :
  encode_from Replace pos s = inr (encode_replace s).
Proof.
  revert pos. induction s as [|c s IH]; intros pos; simpl; [done|].
  rewrite IH, encode_replace_cons.
  unfold replace_char_bytes. by destruct (is_surrogate c).
Qed.

Lemma encode_replace_total (s : list Z) :
  encode Replace s = inr (encode_replace s).
Proof. apply encode_from_replace. Qed.

Lemma encode_replace_app (a b : list Z) :
  encode_replace (a ++ b) = encode_replace a ++ encode_replace b.
Proof. unfold encode_replace. by rewrite map_app, concat_app. Qed.

(** Strict encoding succeeds on a text without lone surrogates, and then
    agrees with the replacing one. *)
Lemma encode_from_strict (pos : nat) (s : list Z) :
  forallb (λ c, negb (is_surrogate c)) s = true →
  encode_from Strict pos s = inr (encode_replace s).
Proof.
  revert pos. induction s as [|c s IH]; intros pos; simpl; [done|].
  intros [Hc Hs]%andb_true_iff. rewrite IH, encode_replace_cons by done.
  unfold replace_char_bytes. by destruct (is_surrogate c).
Qed.

Lemma encode_from_strict_inv (pos : nat) (s bs : list Z) :
  encode_from Strict pos s = inr bs →
  forallb (λ c, negb (is_surrogate c)) s = true.
Proof.
  revert pos bs. induction s as [|c s IH]; intros pos bs; simpl; [done|].
  destruct (is_surrogate c); [done|].
  destruct (encode_from Strict (S pos) s) eqn:E; [done|].
  intros _. simpl. eauto.
Qed.

(** Decoding the bytes of one scalar value gives it back. *)
Lemma decode_encode_char (m : errors) (c : Z) (r : list Z) :
  scalar c → decode m (encode_char c ++ r) = cons c <$> decode m r.
Proof.
  intros [Hr Hs]. unfold is_surrogate in Hs.
  apply andb_false_iff in Hs.
  assert (c < 0xD800 ∨ 0xDFFF < c) as Hc.
  { destruct Hs as [H|H]; [left; apply Z.leb_gt in H|right; apply Z.leb_gt in H];
      lia. }
  clear Hs. unfold encode_char.
  destruct (Z.ltb_spec c 0x80).
  { simpl. destruct (Z.ltb_spec c 128); [done|lia]. }
  destruct (Z.ltb_spec c 0x800).
  { simpl. unfold is_cont. split_compare. do 2 f_equal. divmod_lia. }
  destruct (Z.ltb_spec c 0x10000).
  { simpl. unfold second3, is_cont. split_compare; do 2 f_equal; divmod_lia. }
  simpl. unfold second4, is_cont. split_compare; do 2 f_equal; divmod_lia.
Qed.

Lemma decode_encode (m : errors) (s : list Z) :
  Forall scalar s → decode m (encode_replace s) = Some s.
Proof.
  induction 1 as [|c s Hc Hs IH]; [done|].
  rewrite encode_replace_cons.
  unfold replace_char_bytes. destruct Hc as [Hr Hn]. rewrite Hn.
  rewrite decode_encode_char by done. by rewrite IH.
Qed.

(** With [errors="replace"] decoding never raises, whatever the bytes. *)
Lemma decode_replace_total (bs : list Z) : is_Some (decode Replace bs).
Proof.
  remember (length bs) as n eqn:Hn.
  revert bs Hn. induction (lt_wf n) as [n _ IH]. intros bs ->.
  assert (∀ r : list Z, (length r < length bs)%nat → is_Some (decode Replace r))
    as Hrec by (intros r Hr; by eapply IH).
  clear IH.
  assert (∀ o : option (list Z), is_Some o → is_Some (on_error Replace o))
    as Herr by (intros o [x ->]; by eexists).
  assert (∀ (c : Z) (o : option (list Z)), is_Some o → is_Some (cons c <$> o))
    as Hok by (intros c o [x ->]; by eexists).
  destruct bs as [|b0 r]; [by eexists|]. cbn [decode].
  repeat case_match; subst;
    repeat first [ by eexists | apply Herr | apply Hok
                 | apply Hrec; simpl; lia ].
Qed.

End CodecFacts.

(** ** The clock *)

Section ClockFacts.
Local Open Scope Z_scope.
Import Clock.

(** The time stamp is [HH:MM:SS.mmm]: cutting the last three characters of
    the microsecond field leaves the milliseconds. *)
Lemma timestamp_millis (t : datetime) :
  timestamp t =
  pad2 (hour t) ++ 58 :: pad2 (minute t) ++ 58 :: pad2 (second t)
  ++ 46 :: pad3 (microsecond t / 1000).
Proof.
  unfold timestamp, strftime_HMSf, Py.drop_last, pad2, pad3, pad6. simpl.
  rewrite !Z.div_div by lia. done.
Qed.

Lemma timestamp_length (t : datetime) : length (timestamp t) = 12%nat.
Proof. by rewrite timestamp_millis. Qed.

Lemma timestamp_truthy (t : datetime) : Py.truthy (timestamp t) = true.
Proof. by rewrite timestamp_millis. Qed.

End ClockFacts.

(** ** The poll loop *)

Section PollLoop.

(** The loop of [flush_queue] is the [get_nowait] loop of the source. *)
Lemma drain_unfold (q : list entry) (st : Monitor) (appended : bool) :
  drain q st appended =
  match get_nowait q with
  | None => (set_queue [] st, appended)
  | Some (e, q') =>
      drain q'
        (appendPlainText (format_entry (timestamps_chk st) e)
           (set_queue q' st)) true
  end.
Proof. by destruct q. Qed.

(** What the loop leaves: the queue empty, the console extended by one line
    per entry, in queue order. *)
Lemma drain_spec (q : list entry) (st : Monitor) (appended : bool) :
  drain q st appended =
  (set_queue []
     (set_console
        (console st ++ map (format_entry (timestamps_chk st)) q) st),
   appended || negb (bool_decide (q = []))).
Proof.
  revert st appended. induction q as [|e q IH]; intros st appended.
  - simpl. rewrite app_nil_r, orb_false_r. by destruct st.
  - simpl. rewrite IH. rewrite orb_true_r. destruct st; simpl.
    unfold set_queue, set_console; simpl. by rewrite <- app_assoc.
Qed.

Lemma flush_queue_spec (st : Monitor) :
  flush_queue st =
  let st' :=
    set_queue []
      (set_console
         (console st ++ map (format_entry (timestamps_chk st)) (queue st))
         st) in
  if negb (bool_decide (queue st = [])) && autoscroll_chk st
  then cursor_to_end st' else st'.
Proof. unfold flush_queue. by rewrite drain_spec. Qed.

(** The prefix that turns the stripped text into the displayed line. *)
Lemma format_entry_prefix (b : bool) (ts : option (list Z)) (text : list Z) :
  format_entry b (ts, text) =
  (if b && Py.truthy_opt ts
   then Py.lit "[" ++ default [] ts ++ Py.lit "] " else [])
  ++ Py.rstrip text.
Proof.
  unfold format_entry. destruct (b && Py.truthy_opt ts); [|done].
  by rewrite <- !app_assoc.
Qed.

(** A displayed line ends in white space exactly when a time stamp is shown
    in front of a text that is all white space. *)
Lemma format_entry_ends_in_space (b : bool) (ts : option (list Z))
  (text : list Z) :
  Py.ends_in_space (format_entry b (ts, text)) =
  b && Py.truthy_opt ts && forallb Py.isspace text.
Proof.
  rewrite format_entry_prefix.
  destruct (b && Py.truthy_opt ts); cbn [andb app].
  - destruct (Py.rstrip text) as [|c r] eqn:E.
    + apply rstrip_nil in E. rewrite E, app_nil_r.
      assert (Py.lit "[" ++ default [] ts ++ Py.lit "] "
              = (Py.lit "[" ++ default [] ts ++ Py.lit "]") ++ [32%Z]) as ->.
      { by rewrite <- !app_assoc. }
      unfold Py.ends_in_space. by rewrite last_snoc.
    + rewrite <- E, ends_in_space_app, rstrip_last by (by rewrite E).
      symmetry. apply not_true_is_false. intros H%rstrip_nil. congruence.
  - apply rstrip_last.
Qed.

End PollLoop.

(** ** The reader *)

Section ReaderFacts.

(** A pass of the loop adds at most one entry, at the back of the queue,
    and touches neither the console nor the check boxes. *)
Lemma run_iter_extends_queue (t : nat) (r : read_outcome)
  (now : Clock.datetime) (st : Monitor) :
  ∃ es, queue (run_iter t r now st) = queue st ++ es
        ∧ (length es ≤ 1)%nat
        ∧ console (run_iter t r now st) = console st
        ∧ timestamps_chk (run_iter t r now st) = timestamps_chk st.
Proof.
  unfold run_iter. repeat case_match; simpl;
    first [ exists []; rewrite app_nil_r; simpl; repeat split; (done || lia)
          | eexists [_]; simpl; repeat split; (done || lia) ].
Qed.

(** [run] is a sequence of passes of one thread. *)
Lemma run_as_events (t : nat)
  (answers : list (read_outcome * Clock.datetime)) (st : Monitor) :
  run t answers st
  = run_events (map (λ a, Reader_pass t a.1 a.2) answers) st.
Proof.
  revert st. induction answers as [|[r now] rest IH]; intros st; [done|].
  simpl. by rewrite IH.
Qed.

(** A pass puts exactly [put_by] at the back of the queue. *)
Lemma run_iter_put_by (t : nat) (r : read_outcome) (now : Clock.datetime)
  (st : Monitor) :
  queue (run_iter t r now st) = queue st ++ put_by (Pass t r now) st.
Proof.
  destruct (run_iter_extends_queue t r now st) as (es & Hq & _).
  simpl. by rewrite Hq, drop_app_length.
Qed.

End ReaderFacts.

(** ** Producer and consumer *)

Section Fifo.

(** Whatever the interleaving of passes and ticks, the lines shown so far
    followed by the lines of the entries still queued are the lines of the
    entries put, in the order of the [put] calls: nothing is lost, shown
    twice or reordered. *)
Lemma fifo_interleaved (acts : list activity) (st : Monitor) :
  let st' := run_events (map event_of acts) st in
  console st' ++ map (format_entry (timestamps_chk st)) (queue st')
  = console st
    ++ map (format_entry (timestamps_chk st)) (queue st ++ produced acts st)
  ∧ timestamps_chk st' = timestamps_chk st.
Proof.
  cbn zeta. revert st. induction acts as [|a acts IH]; intros st.
  - simpl. by rewrite app_nil_r.
  - change (run_events (map event_of (a :: acts)) st)
      with (run_events (map event_of acts) (step st (event_of a))).
    destruct (IH (step st (event_of a))) as [Hfifo Hts].
    assert (timestamps_chk (step st (event_of a)) = timestamps_chk st
            ∧ console (step st (event_of a))
              ++ map (format_entry (timestamps_chk st))
                   (queue (step st (event_of a)))
              = console st
                ++ map (format_entry (timestamps_chk st))
                     (queue st ++ put_by a st)) as [Hts1 Hstep].
    { destruct a as [t r now|].
      - destruct (run_iter_extends_queue t r now st) as (_ & _ & _ & Hc & Ht).
        cbn [event_of step]. by rewrite run_iter_put_by, Hc, Ht.
      - cbn [event_of step put_by]. rewrite flush_queue_spec. cbn zeta.
        rewrite app_nil_r. by case_match; simpl; rewrite app_nil_r. }
    rewrite Hts1 in Hfifo, Hts. split; [|done].
    rewrite Hfifo. cbn [produced]. rewrite !map_app, !app_assoc.
    f_equal. by rewrite <- !app_assoc, <- map_app.
Qed.

End Fifo.

(** ** Claims about the poll loop and the console *)

Section ConsoleClaims.

(** C1. [flush_queue] appends one console line per queued entry, in queue
    order, each entry once and none left behind: after the single pass the
    console is the old console followed by the formatted entries and the
    queue is empty.  Across any interleaving of reader passes and timer
    ticks, the lines shown followed by the entries still queued are the
    entries put, in the order they were put; one more pass shows them
    all. *)
Theorem flush_queue_fifo (st : Monitor) :
  console (flush_queue st)
  = console st ++ map (format_entry (timestamps_chk st)) (queue st)
  ∧ queue (flush_queue st) = []
  ∧ length (console (flush_queue st))
    = length (console st) + length (queue st)
  ∧ (∀ i e, queue st !! i = Some e →
      console (flush_queue st) !! (length (console st) + i)
      = Some (format_entry (timestamps_chk st) e))
  ∧ ∀ acts,
      let st' := run_events (map event_of acts) st in
      console st' ++ map (format_entry (timestamps_chk st)) (queue st')
      = console st
        ++ map (format_entry (timestamps_chk st))
             (queue st ++ produced acts st)
      ∧ console (flush_queue st')
        = console st
          ++ map (format_entry (timestamps_chk st))
               (queue st ++ produced acts st).
Proof.
  assert (∀ st,
    console (flush_queue st)
    = console st ++ map (format_entry (timestamps_chk st)) (queue st))
    as Hflush.
  { intros st'. rewrite flush_queue_spec. cbn zeta. by case_match. }
  split; [apply Hflush|].
  split; [rewrite flush_queue_spec; cbn zeta; by case_match|].
  split; [by rewrite Hflush, length_app, length_map|].
  split.
  - intros i e Hi.
    rewrite Hflush, lookup_app_r, Nat.add_comm, Nat.add_sub by lia.
    by rewrite list_lookup_fmap, Hi.
  - intros acts. cbn zeta.
    destruct (fifo_interleaved acts st) as [Hfifo Hts].
    split; [done|]. by rewrite Hflush, Hts.
Qed.

(** What each operation does to the console. *)
Lemma append_text_console (text : list Z) (st : Monitor) :
  console (append_text text st) = console st ++ [Py.rstrip text].
Proof. unfold append_text. by case_match. Qed.

(** [append_text] touches the console and its cursor only. *)
Lemma append_text_frame (text : list Z) (st : Monitor) :
  let st' := append_text text st in
  ser st' = ser st ∧ reader st' = reader st ∧ queue st' = queue st
  ∧ stop_event st' = stop_event st ∧ ports st' = ports st
  ∧ threads st' = threads st
  ∧ port_box_enabled st' = port_box_enabled st
  ∧ connect_btn st' = connect_btn st ∧ send_edit st' = send_edit st
  ∧ eol_box_index st' = eol_box_index st
  ∧ keep_text_chk st' = keep_text_chk st ∧ status st' = status st.
Proof. cbn zeta. unfold append_text. by case_match. Qed.

Lemma flush_queue_console (st : Monitor) :
  console (flush_queue st)
  = console st ++ map (format_entry (timestamps_chk st)) (queue st).
Proof. rewrite flush_queue_spec. cbn zeta. by case_match. Qed.

Lemma disconnect_serial_console (j : join_outcome) (c : close_outcome)
  (st : Monitor) :
  console (state_of (disconnect_serial j c st)) = console st.
Proof.
  unfold disconnect_serial, close_port, stop_and_join, except_pass.
  simpl. repeat case_match; done.
Qed.

Lemma connect_serial_console (o : open_outcome) (st : Monitor) :
  ∃ ls, console (state_of (connect_serial o st)) = console st ++ ls
        ∧ Forall stripped_line ls.
Proof.
  unfold connect_serial. repeat case_match; simpl;
    rewrite ?append_text_console;
    first [ eexists [_]; split; [done|];
            apply Forall_singleton; left; apply rstrip_last
          | exists []; by rewrite app_nil_r ].
Qed.

Lemma send_text_console (w : write_outcome) (st : Monitor) :
  ∃ ls, console (state_of (send_text w st)) = console st ++ ls
        ∧ Forall stripped_line ls.
Proof.
  unfold send_text. repeat case_match; simpl;
    rewrite ?append_text_console;
    first [ eexists [_]; split; [done|];
            apply Forall_singleton; left; apply rstrip_last
          | exists []; by rewrite app_nil_r ].
Qed.

Lemma format_entry_stripped (b : bool) (e : entry) :
  stripped_line (format_entry b e).
Proof.
  destruct e as [ts text].
  destruct (Py.ends_in_space (format_entry b (ts, text))) eqn:E; [|by left].
  right. rewrite format_entry_ends_in_space in E.
  apply andb_true_iff in E as [E Hsp]. apply rstrip_nil in Hsp.
  rewrite format_entry_prefix, E, Hsp, app_nil_r. by eexists.
Qed.

Lemma step_console (ev : event) (st : Monitor) :
  Forall stripped_line (console st) →
  Forall stripped_line (console (step st ev)).
Proof.
  intros Hst.
  destruct ev as [o j c|w| |found|text|i|i|i|b|b|b|t r now|]; simpl;
    try done.
  - unfold toggle_connection. case_match.
    + by rewrite disconnect_serial_console.
    + destruct (connect_serial_console o st) as (ls & -> & Hls).
      by apply Forall_app.
  - destruct (send_text_console w st) as (ls & -> & Hls). by apply Forall_app.
  - by case_match.
  - by destruct (run_iter_extends_queue t r now st) as (_ & _ & _ & -> & _).
  - rewrite flush_queue_console. apply Forall_app. split; [done|].
    apply Forall_fmap, Forall_forall. intros e _. apply format_entry_stripped.
Qed.

(** Every line the console ever holds is a stripped line. *)
Lemma console_stripped (found : list (list Z * list Z)) (evs : list event) :
  Forall stripped_line (console (run_events evs (init found))).
Proof.
  unfold run_events.
  assert (Forall stripped_line (console (init found))) as H by constructor.
  revert H. generalize (init found).
  induction evs as [|ev evs IH]; intros st Hst; simpl; [done|].
  apply IH. by apply step_console.
Qed.

(** C9, as the code has it.  The text of every appended line is stripped of
    its trailing white space, and of nothing else.  A line appended by
    [append_text], or by [flush_queue] without a time stamp, never ends in
    white space, and then an entry that is all white space shows as an
    empty line.  A line shown with its time stamp is ["[ts] "] followed by
    the stripped text, so it ends in white space exactly when the text is
    all white space.  In every reachable state each console line has no
    trailing white space or is a bare ["[ts] "] prefix. *)
Theorem console_lines_stripped :
  (∀ st text, console (append_text text st) = console st ++ [Py.rstrip text])
  ∧ (∀ st, console (flush_queue st)
           = console st ++ map (format_entry (timestamps_chk st)) (queue st))
  ∧ (∀ s, ∃ w, s = Py.rstrip s ++ w ∧ forallb Py.isspace w = true)
  ∧ (∀ s, Py.ends_in_space (Py.rstrip s) = false)
  ∧ (∀ s, bool_decide (Py.rstrip s = []) = forallb Py.isspace s)
  ∧ (∀ b ts text,
       format_entry b (ts, text)
       = (if b && Py.truthy_opt ts
          then Py.lit "[" ++ default [] ts ++ Py.lit "] " else [])
         ++ Py.rstrip text)
  ∧ (∀ b ts text,
       Py.ends_in_space (format_entry b (ts, text))
       = b && Py.truthy_opt ts && forallb Py.isspace text)
  ∧ (∀ found evs,
       Forall stripped_line (console (run_events evs (init found)))).
Proof.
  repeat split.
  - intros. apply append_text_console.
  - apply flush_queue_console.
  - apply rstrip_suffix.
  - apply rstrip_last.
  - apply rstrip_nil_b.
  - apply format_entry_prefix.
  - apply format_entry_ends_in_space.
  - apply console_stripped.
Qed.

(** C9 as stated fails: with time stamps on (the default), a received line
    holding only a line feed is shown as ["[12:00:00.000] "], which is not
    empty and ends in a space. *)
Lemma console_line_ends_in_space :
  let st := run_events
              [Click_connect OpenOk JoinExited CloseOk;
               Reader_pass 0 (ReadLine [Py.LF]) Scenario.noon;
               Timer_tick]
              (init Scenario.found) in
  console st = [Py.lit "[12:00:00.000] "]
  ∧ Py.ends_in_space (Py.lit "[12:00:00.000] ") = true.
Proof. vm_compute. done. Qed.

End ConsoleClaims.

(** ** Claims about the send path *)

Section SendClaims.

Lemma eol_suffix_index (i : nat) :
  eol_suffix (currentText eol_items i) = eol_bytes i.
Proof. by destruct i as [|[|[|[|i]]]]. Qed.

Lemma encode_replace_eol (i : nat) :
  Utf8.encode_replace (eol_bytes i) = eol_bytes i.
Proof. by destruct i as [|[|[|[|i]]]]. Qed.

Lemma send_data_spec (st : Monitor) :
  send_data st
  = Utf8.encode_replace (send_edit st) ++ eol_bytes (eol_box_index st).
Proof.
  unfold send_data. rewrite encode_replace_total, eol_suffix_index.
  by rewrite encode_replace_app, encode_replace_eol.
Qed.

(** C2. On an open connection [send_text] hands [ser.write] exactly the
    encoding of the typed text followed by the bytes of the selected line
    ending, and nothing else reaches the port; encoding with
    [errors="replace"] never fails, an unencodable character becoming
    ["?"]. *)
Theorem send_text_transmits (st : Monitor) (h : nat) (p : Serial) :
  ser st = Some h → ports st !! h = Some p → is_open p = true →
  let payload :=
    Utf8.encode_replace (send_edit st) ++ eol_bytes (eol_box_index st) in
  Utf8.encode Utf8.Replace
    (send_edit st ++ eol_suffix (currentText eol_items (eol_box_index st)))
  = inr payload
  ∧ ports (state_of (send_text WriteOk st)) !! h = Some (add_tx payload p)
  ∧ tx (add_tx payload p) = tx p ++ [payload]
  ∧ (∀ h', h' ≠ h →
       ports (state_of (send_text WriteOk st)) !! h' = ports st !! h')
  ∧ (∀ c, Utf8.is_surrogate c = true → Utf8.encode_replace [c] = [63%Z]).
Proof.
  intros Hser Hp Hopen payload.
  assert (connected st = true) as Hconn.
  { unfold connected, port_is_open. by rewrite Hser, Hp. }
  split.
  { rewrite encode_replace_total, eol_suffix_index.
    by rewrite encode_replace_app, encode_replace_eol. }
  unfold send_text. rewrite Hconn, Hser. simpl.
  rewrite send_data_spec. fold payload.
  split; [|split; [done|split]].
  - case_match; simpl; by rewrite list_lookup_alter_eq, Hp.
  - intros h' Hne. case_match; simpl; by rewrite list_lookup_alter_ne.
  - intros c Hc. unfold Utf8.encode_replace, Utf8.replace_char_bytes. simpl.
    by rewrite Hc.
Qed.

(** ["AT"] with the EOL selector on [\r\n] puts the four bytes
    [A T \r \n] on the wire, and with the selector on [None] the two bytes
    [A T]. *)
Lemma send_text_transmits_AT :
  (Utf8.encode Utf8.Replace (Py.lit "AT" ++ [Py.CR; Py.LF])
   = inr [65; 84; 13; 10]%Z
   ∧ ports (state_of (send_text WriteOk (Scenario.typing_AT 3))) !! 0
     = Some (add_tx [65; 84; 13; 10]%Z Scenario.com3)
   ∧ tx (add_tx [65; 84; 13; 10]%Z Scenario.com3) = [[65; 84; 13; 10]%Z]
   ∧ (∀ h', h' ≠ 0 →
        ports (state_of (send_text WriteOk (Scenario.typing_AT 3))) !! h'
        = ports (Scenario.typing_AT 3) !! h')
   ∧ (∀ c, Utf8.is_surrogate c = true → Utf8.encode_replace [c] = [63%Z]))
  ∧ (Utf8.encode Utf8.Replace (Py.lit "AT" ++ []) = inr [65; 84]%Z
     ∧ ports (state_of (send_text WriteOk (Scenario.typing_AT 0))) !! 0
       = Some (add_tx [65; 84]%Z Scenario.com3)
     ∧ tx (add_tx [65; 84]%Z Scenario.com3) = [[65; 84]%Z]
     ∧ (∀ h', h' ≠ 0 →
          ports (state_of (send_text WriteOk (Scenario.typing_AT 0))) !! h'
          = ports (Scenario.typing_AT 0) !! h')
     ∧ (∀ c, Utf8.is_surrogate c = true → Utf8.encode_replace [c] = [63%Z])).
Proof.
  split.
  - exact (send_text_transmits (Scenario.typing_AT 3) 0 Scenario.com3
             eq_refl eq_refl eq_refl).
  - exact (send_text_transmits (Scenario.typing_AT 0) 0 Scenario.com3
             eq_refl eq_refl eq_refl).
Defined.

(** C5. A failed write leaves one error line on the console and changes
    neither the connection (handle, reader, stores, stop flag, button, port
    selector) nor the input field, so the same send can be issued again;
    the input field is emptied exactly when the port was open, the write
    succeeded and "Keep after send" is unchecked. *)
Theorem send_text_write_failure (e : exn) (st : Monitor) :
  let st' := state_of (send_text (WriteFails e) st) in
  send_text (WriteFails e) st = Returns st'
  ∧ console st'
    = console st
      ++ (if connected st
          then [Py.rstrip (Py.lit "[ERROR] send failed: " ++ str_of_exn e
                           ++ [Py.LF])]
          else [])
  ∧ ser st' = ser st ∧ reader st' = reader st
  ∧ ports st' = ports st ∧ threads st' = threads st
  ∧ stop_event st' = stop_event st ∧ queue st' = queue st
  ∧ connect_btn st' = connect_btn st
  ∧ port_box_enabled st' = port_box_enabled st
  ∧ connected st' = connected st
  ∧ send_edit st' = send_edit st
  ∧ send_data st' = send_data st
  ∧ ∀ w, send_edit (state_of (send_text w st))
         = if connected st && write_ok w && negb (keep_text_chk st)
           then [] else send_edit st.
Proof.
  cbn zeta. unfold send_text.
  destruct (connected st) eqn:Hconn; cbn [negb state_of].
  - set (msg := Py.lit "[ERROR] send failed: " ++ str_of_exn e ++ [Py.LF]).
    destruct (append_text_frame msg st)
      as (Hser & Hrd & Hq & Hstop & Hports & Hthr & Hen & Hbtn & Hedit
          & Heol & Hkeep & Hstatus).
    rewrite append_text_console.
    repeat (split; [done|]).
    split; [by unfold connected, port_is_open; rewrite Hser, Hports|].
    split; [done|].
    split; [by unfold send_data; rewrite Hedit, Heol|].
    intros [|e']; cbn [write_ok andb state_of].
    + destruct (ser st); destruct (keep_text_chk st) eqn:Hk; simpl;
        by rewrite ?Hk.
    + by destruct (append_text_frame
                     (Py.lit "[ERROR] send failed: " ++ str_of_exn e'
                      ++ [Py.LF]) st)
        as (_ & _ & _ & _ & _ & _ & _ & _ & H & _).
  - rewrite app_nil_r. repeat split; try done; by intros [|e'].
Qed.

End SendClaims.

(** ** Claims about the reader *)

Section ReaderClaims.

Lemma decode_line_spec (line : list Z) :
  Utf8.decode Utf8.Replace line = Some (decode_line line).
Proof.
  unfold decode_line. by destruct (decode_replace_total line) as [text ->].
Qed.

Lemma thread_is_alive_exit (t : nat) (st : Monitor) :
  thread_is_alive t (alter_thread (set_is_alive false) t st) = false.
Proof.
  unfold thread_is_alive, alter_thread. simpl.
  rewrite list_lookup_alter_eq. by destruct (threads st !! t).
Qed.

(** A thread that is not alive takes no further pass. *)
Lemma run_iter_dead (t : nat) (r : read_outcome) (now : Clock.datetime)
  (st : Monitor) :
  thread_is_alive t st = false → run_iter t r now st = st.
Proof.
  unfold thread_is_alive, run_iter.
  destruct (threads st !! t) as [th|]; [|done]. by intros ->.
Qed.

(** What the replacing decoder makes of its input, sequence by
    sequence. *)
Lemma decode_line_cons (c : Z) (bs r : list Z) :
  Utf8.decode Utf8.Replace bs = cons c <$> Utf8.decode Utf8.Replace r →
  decode_line bs = c :: decode_line r.
Proof.
  intros H. unfold decode_line. rewrite H.
  by destruct (decode_replace_total r) as [text ->].
Qed.

Lemma decode_valid_prefix (m : Utf8.errors) (s r : list Z) :
  Forall Utf8.scalar s →
  Utf8.decode m (Utf8.encode_replace s ++ r) = (s ++.) <$> Utf8.decode m r.
Proof.
  induction 1 as [|c s Hc Hs IH]; simpl.
  - by destruct (Utf8.decode m r).
  - rewrite encode_replace_cons. unfold Utf8.replace_char_bytes.
    destruct Hc as [Hr Hn]. rewrite Hn, <- app_assoc.
    rewrite decode_encode_char by done. rewrite IH.
    by destruct (Utf8.decode m r).
Qed.

(** Well-formed UTF-8 is read as it is, whatever follows. *)
Lemma decode_line_valid_prefix (s r : list Z) :
  Forall Utf8.scalar s →
  decode_line (Utf8.encode_replace s ++ r) = s ++ decode_line r.
Proof.
  intros Hs. unfold decode_line. rewrite decode_valid_prefix by done.
  by destruct (decode_replace_total r) as [text ->].
Qed.

(** A byte that leads nothing becomes U+FFFD. *)
Lemma decode_line_no_lead (b : Z) (r : list Z) :
  (0x80 ≤ b)%Z → Utf8.trail b = 0 →
  decode_line (b :: r) = Utf8.REPLACEMENT :: decode_line r.
Proof.
  intros Hb Ht. apply decode_line_cons. cbn [Utf8.decode].
  unfold Utf8.trail in Ht. repeat case_match; try done; lia.
Qed.

(** A sequence that is broken off becomes one U+FFFD, and the byte that
    broke it is read afresh. *)
Lemma decode_line_broken (b0 : Z) (pre r : list Z) :
  (0x80 ≤ b0)%Z → length pre < Utf8.trail b0 →
  Utf8.well_begun b0 0 pre = true →
  Utf8.goes_on b0 (length pre) r = false →
  decode_line (b0 :: pre ++ r) = Utf8.REPLACEMENT :: decode_line r.
Proof.
  intros Hb Hlen Hpre Hr. apply decode_line_cons.
  unfold Utf8.trail in Hlen.
  assert ((b0 <? 0x80)%Z = false) as E0 by (apply Z.ltb_ge; lia).
  destruct (b0 <? 0xC2)%Z eqn:E1; [simpl in Hlen; lia|].
  destruct (b0 <? 0xE0)%Z eqn:E2.
  { destruct pre as [|b1 pre]; [|simpl in Hlen; lia].
    cbn [app Utf8.decode]. rewrite E0, E1, E2.
    destruct r as [|b r']; [done|].
    cbn [Utf8.goes_on length Utf8.admissible] in Hr. rewrite E2 in Hr.
    by rewrite Hr. }
  destruct (b0 <? 0xF0)%Z eqn:E3.
  { destruct pre as [|b1 [|b2 pre]]; [| |simpl in Hlen; lia].
    - cbn [app Utf8.decode]. rewrite E0, E1, E2, E3.
      destruct r as [|b r']; [done|].
      cbn [Utf8.goes_on length Utf8.admissible] in Hr.
      rewrite E2, E3 in Hr. by rewrite Hr.
    - cbn [Utf8.well_begun Utf8.admissible] in Hpre. rewrite E2, E3 in Hpre.
      apply andb_true_iff in Hpre as [Hb1 _].
      cbn [app Utf8.decode]. rewrite E0, E1, E2, E3, Hb1.
      destruct r as [|b r']; [done|].
      cbn [Utf8.goes_on length Utf8.admissible] in Hr. by rewrite Hr. }
  destruct (b0 <? 0xF5)%Z eqn:E4; [|simpl in Hlen; lia].
  destruct pre as [|b1 [|b2 [|b3 pre]]]; [| | |simpl in Hlen; lia].
  - cbn [app Utf8.decode]. rewrite E0, E1, E2, E3, E4.
    destruct r as [|b r']; [done|].
    cbn [Utf8.goes_on length Utf8.admissible] in Hr. rewrite E2, E3 in Hr.
    by rewrite Hr.
  - cbn [Utf8.well_begun Utf8.admissible] in Hpre. rewrite E2, E3 in Hpre.
    apply andb_true_iff in Hpre as [Hb1 _].
    cbn [app Utf8.decode]. rewrite E0, E1, E2, E3, E4, Hb1.
    destruct r as [|b r']; [done|].
    cbn [Utf8.goes_on length Utf8.admissible] in Hr. by rewrite Hr.
  - cbn [Utf8.well_begun Utf8.admissible] in Hpre. rewrite E2, E3 in Hpre.
    apply andb_true_iff in Hpre as [Hb1 Hb2].
    apply andb_true_iff in Hb2 as [Hb2 _].
    cbn [app Utf8.decode]. rewrite E0, E1, E2, E3, E4, Hb1, Hb2.
    destruct r as [|b r']; [done|].
    cbn [Utf8.goes_on length Utf8.admissible] in Hr. by rewrite Hr.
Qed.

(** C3. One pass of the reader loop: the thread is alive and has found the
    stop flag clear.  On an open port, a non-empty read is decoded, stamped
    [HH:MM:SS.mmm] and put at the back of the queue, and the thread stays
    alive; an empty read changes nothing; a read that raises puts the
    single entry [(None, "[ERROR] <e>\n")] and ends the thread, which
    takes no further pass.  On a handle that has been closed, [readline]
    raises whatever the line holds, and the pass is that of a read that
    raises, with pyserial's message.  Decoding never fails and replaces
    what cannot be decoded: well-formed UTF-8 is read as it is, a byte that
    leads no sequence becomes U+FFFD, and a sequence that is broken off, by
    the end of the line or by a byte that cannot carry it on, becomes one
    U+FFFD, after which that byte is read afresh. *)
Theorem reader_pass_spec (t : nat) (th : SerialReader) (p : Serial)
  (now : Clock.datetime) (st : Monitor) :
  threads st !! t = Some th → is_alive th = true → stop_event st = false →
  ports st !! reader_ser th = Some p →
  (is_open p = true →
     (∀ line, Py.truthy line = true →
        Utf8.decode Utf8.Replace line = Some (decode_line line)
        ∧ run_iter t (ReadLine line) now st
          = put (Some (Clock.timestamp now), decode_line line) st
        ∧ queue (run_iter t (ReadLine line) now st)
          = queue st ++ [(Some (Clock.timestamp now), decode_line line)]
        ∧ thread_is_alive t (run_iter t (ReadLine line) now st) = true)
     ∧ run_iter t (ReadLine []) now st = st
     ∧ (∀ e,
          let st' := run_iter t (ReadFails e) now st in
          queue st'
          = queue st ++ [(None, Py.lit "[ERROR] " ++ str_of_exn e ++ [Py.LF])]
          ∧ thread_is_alive t st' = false
          ∧ ∀ r' now', run_iter t r' now' st' = st'))
  ∧ (is_open p = false →
     ∀ r,
       let st' := run_iter t r now st in
       queue st'
       = queue st ++ [(None, Py.lit "[ERROR] " ++ PORT_NOT_OPEN ++ [Py.LF])]
       ∧ thread_is_alive t st' = false
       ∧ ∀ r' now', run_iter t r' now' st' = st')
  ∧ (∀ line, Utf8.decode Utf8.Replace line = Some (decode_line line))
  ∧ (∀ s, Forall Utf8.scalar s → decode_line (Utf8.encode_replace s) = s)
  ∧ (∀ s r, Forall Utf8.scalar s →
       decode_line (Utf8.encode_replace s ++ r) = s ++ decode_line r)
  ∧ (∀ b r, (0x80 ≤ b)%Z → Utf8.trail b = 0 →
       decode_line (b :: r) = Utf8.REPLACEMENT :: decode_line r)
  ∧ (∀ b0 pre r, (0x80 ≤ b0)%Z → length pre < Utf8.trail b0 →
       Utf8.well_begun b0 0 pre = true →
       Utf8.goes_on b0 (length pre) r = false →
       decode_line (b0 :: pre ++ r) = Utf8.REPLACEMENT :: decode_line r)
  ∧ Clock.timestamp now
    = Clock.pad2 (Clock.hour now) ++ 58%Z :: Clock.pad2 (Clock.minute now)
      ++ 58%Z :: Clock.pad2 (Clock.second now)
      ++ 46%Z :: Clock.pad3 (Clock.microsecond now / 1000).
Proof.
  intros Hth Halive Hstop Hp.
  assert (∀ r, run_iter t r now st =
    match readline r p with
    | ReadLine line =>
        if Py.truthy line
        then put (Some (Clock.timestamp now), decode_line line) st else st
    | ReadFails e =>
        alter_thread (set_is_alive false) t
          (put (None, Py.lit "[ERROR] " ++ str_of_exn e ++ [Py.LF]) st)
    end) as Hiter.
  { intros r. unfold run_iter. by rewrite Hth, Halive, Hstop, Hp. }
  split_and!.
  - intros Hopen. unfold readline in Hiter. rewrite Hopen in Hiter.
    split_and!.
    + intros line Hline. rewrite Hiter, Hline.
      split; [apply decode_line_spec|]. split; [done|]. split; [done|].
      unfold thread_is_alive. simpl. by rewrite Hth.
    + by rewrite Hiter.
    + intros e. cbn zeta. rewrite Hiter. split; [done|].
      split; [apply thread_is_alive_exit|].
      intros r' now'. apply run_iter_dead, thread_is_alive_exit.
  - intros Hclosed r. cbn zeta.
    unfold readline in Hiter. rewrite Hclosed in Hiter. rewrite Hiter.
    split; [done|]. split; [apply thread_is_alive_exit|].
    intros r' now'. apply run_iter_dead, thread_is_alive_exit.
  - apply decode_line_spec.
  - intros s Hs. unfold decode_line. by rewrite decode_encode.
  - apply decode_line_valid_prefix.
  - apply decode_line_no_lead.
  - apply decode_line_broken.
  - apply timestamp_millis.
Qed.

(** Two passes at noon.  On the freshly opened port of the example
    session: a line is queued decoded, among them the line ["h"], 0xFF,
    ["\n"], whose second byte leads nothing and is queued as U+FFFD, and
    the line 0xE2, 0x82, ["A"], a euro sign broken off after two bytes.  On
    the closed handle 0 of a window that was disconnected with the join
    timing out and connected again: the first reader, still alive, queues
    pyserial's error and ends. *)
Lemma reader_pass_spec_online :
  ((∀ line, Py.truthy line = true →
      Utf8.decode Utf8.Replace line = Some (decode_line line)
      ∧ run_iter 0 (ReadLine line) Scenario.noon Scenario.online
        = put (Some (Clock.timestamp Scenario.noon), decode_line line)
            Scenario.online
      ∧ queue (run_iter 0 (ReadLine line) Scenario.noon Scenario.online)
        = queue Scenario.online
          ++ [(Some (Clock.timestamp Scenario.noon), decode_line line)]
      ∧ thread_is_alive 0
          (run_iter 0 (ReadLine line) Scenario.noon Scenario.online) = true)
   ∧ run_iter 0 (ReadLine []) Scenario.noon Scenario.online = Scenario.online
   ∧ (∀ e,
        let st' := run_iter 0 (ReadFails e) Scenario.noon Scenario.online in
        queue st'
        = queue Scenario.online
          ++ [(None, Py.lit "[ERROR] " ++ str_of_exn e ++ [Py.LF])]
        ∧ thread_is_alive 0 st' = false
        ∧ ∀ r' now', run_iter 0 r' now' st' = st'))
  ∧ (∀ r,
       let st' := run_iter 0 r Scenario.noon Scenario.stale in
       queue st'
       = queue Scenario.stale
         ++ [(None, Py.lit "[ERROR] Attempting to use a port that is not open"
                    ++ [Py.LF])]
       ∧ thread_is_alive 0 st' = false
       ∧ ∀ r' now', run_iter 0 r' now' st' = st')
  ∧ decode_line [104; 255; 10]%Z = [104; 65533; 10]%Z
  ∧ decode_line [0xE2; 0x82; 65]%Z = [65533; 65]%Z
  ∧ Clock.timestamp Scenario.noon = Py.lit "12:00:00.000".
Proof.
  destruct (reader_pass_spec 0 {| reader_ser := 0; is_alive := true |}
              Scenario.com3 Scenario.noon Scenario.online
              eq_refl eq_refl eq_refl eq_refl)
    as (Hopen & _ & _ & _ & Hvalid & Hlead & Hbroken & Hstamp).
  destruct (reader_pass_spec 0 {| reader_ser := 0; is_alive := true |}
              (set_is_open false Scenario.com3) Scenario.noon Scenario.stale
              eq_refl eq_refl eq_refl eq_refl)
    as (_ & Hclosed & _).
  split; [exact (Hopen eq_refl)|]. split; [exact (Hclosed eq_refl)|].
  split; [|split; [|exact Hstamp]].
  - change (decode_line (Utf8.encode_replace [104%Z] ++ [255; 10]%Z)
            = [104%Z] ++ [65533; 10]%Z).
    rewrite Hvalid by (repeat constructor; vm_compute; congruence).
    apply (f_equal (app [104%Z])).
    etrans; [apply Hlead; vm_compute; congruence|reflexivity].
  - change (decode_line (226%Z :: [130%Z] ++ [65%Z]) = [65533; 65]%Z).
    etrans; [apply Hbroken; vm_compute; (congruence || lia)|reflexivity].
Defined.

End ReaderClaims.

(** ** Claims about connecting *)

Section ConnectClaims.

(** Every item of the baud selector is the decimal spelling of a number. *)
Lemma baud_item_int (i : nat) :
  i < length baud_items →
  ∃ baud, Py.int_of_str (currentText baud_items i) = Some baud
          ∧ Py.str_of_int baud = currentText baud_items i.
Proof.
  intros Hi.
  do 13 (destruct i as [|i]; [eexists; split; vm_compute; reflexivity|]).
  simpl in Hi. lia.
Qed.

(** C4. With a port listed and a baud rate selected: if the open fails,
    [connect_serial] returns having changed neither the handle nor the
    reader reference, the stores, the stop flag, the button or the port
    selector, so a disconnected controller stays disconnected with the same
    threads; the error is appended to the console and shown in the status
    bar.  If the open succeeds, the stop flag is cleared and a new reader
    thread on the new, open handle is started and referenced. *)
Theorem connect_serial_outcomes (st : Monitor) :
  port_box st ≠ [] → baud_box_index st < length baud_items →
  let rate := currentText baud_items (baud_box_index st) in
  (∀ e,
     let st' := state_of (connect_serial (OpenFails e) st) in
     connect_serial (OpenFails e) st = Returns st'
     ∧ ser st' = ser st ∧ reader st' = reader st
     ∧ ports st' = ports st ∧ threads st' = threads st
     ∧ stop_event st' = stop_event st
     ∧ connect_btn st' = connect_btn st
     ∧ port_box_enabled st' = port_box_enabled st
     ∧ connected st' = connected st
     ∧ alive_count st' = alive_count st
     ∧ console st'
       = console st
         ++ [Py.rstrip (Py.lit "[ERROR] Could not open " ++ chosen_device st
                        ++ Py.lit " @ " ++ rate ++ Py.lit ": "
                        ++ str_of_exn e ++ [Py.LF])]
     ∧ status st'
       = status st ++ [(Py.lit "Failed to connect: " ++ str_of_exn e, 5000%Z)])
  ∧ (let st' := state_of (connect_serial OpenOk st) in
     let h := length (ports st) in
     let t := length (threads st) in
     connect_serial OpenOk st = Returns st'
     ∧ stop_event st' = false
     ∧ ser st' = Some h ∧ reader st' = Some t
     ∧ port_is_open h st' = true
     ∧ threads st' = threads st ++ [{| reader_ser := h; is_alive := true |}]
     ∧ thread_is_alive t st' = true
     ∧ (∃ p, ports st' = ports st ++ [p] ∧ device p = chosen_device st
             ∧ Py.str_of_int (baudrate p) = rate ∧ is_open p = true)
     ∧ connect_btn st' = Py.lit "Disconnect"
     ∧ port_box_enabled st' = false).
Proof.
  intros Hbox Hbaud rate.
  destruct (baud_item_int _ Hbaud) as (baud & Hint & Hstr). fold rate in Hint, Hstr.
  assert ((length (port_box st) =? 0) = false) as Hlen.
  { destruct (port_box st); [done|]. done. }
  unfold connect_serial. fold rate. rewrite Hlen, Hint.
  split.
  - intros e. cbn zeta. rewrite Hstr.
    set (msg := Py.lit "[ERROR] Could not open " ++ _).
    destruct (append_text_frame msg st)
      as (Hser & Hrd & Hq & Hstop & Hports & Hthr & Hen & Hbtn & Hedit
          & Heol & Hkeep & Hstatus).
    cbn [state_of]. unfold showMessage, connected, port_is_open, alive_count.
    simpl. rewrite append_text_console, Hser, Hrd, Hports, Hthr, Hstop, Hbtn,
      Hen, Hstatus.
    done.
  - cbn zeta. cbn [state_of]. simpl.
    unfold port_is_open, thread_is_alive. simpl.
    rewrite !list_lookup_alter_eq, !list_lookup_middle by done. simpl.
    repeat split; try done.
    + assert (∀ (l : list SerialReader) x f,
                alter f (length l) (l ++ [x]) = l ++ [f x]) as Halter.
      { intros l x f. induction l as [|y l IH]; simpl; [done|]. by f_equal. }
      by rewrite Halter.
    + eexists. repeat split; done.
Qed.

(** The first click on Connect in the example session, both ways. *)
Lemma connect_serial_outcomes_COM3 :
  ser (state_of (connect_serial (OpenFails Scenario.io_error)
                   (init Scenario.found))) = None
  ∧ alive_count (state_of (connect_serial (OpenFails Scenario.io_error)
                             (init Scenario.found))) = 0
  ∧ thread_is_alive 0 (state_of (connect_serial OpenOk (init Scenario.found)))
    = true.
Proof.
  assert (port_box (init Scenario.found) ≠ []) as Hbox by done.
  assert (baud_box_index (init Scenario.found) < length baud_items) as Hbaud
    by (vm_compute; lia).
  destruct (connect_serial_outcomes (init Scenario.found) Hbox Hbaud)
    as [Hfail Hok].
  destruct (Hfail Scenario.io_error)
    as (_ & Hser & _ & _ & _ & _ & _ & _ & _ & Halive & _).
  destruct Hok as (_ & _ & _ & _ & _ & _ & Hthread & _).
  split; [exact Hser|split; [exact Halive|exact Hthread]].
Defined.

End ConnectClaims.

(** ** Claims about disconnecting *)

Section DisconnectClaims.

Lemma port_is_open_alter (f : Serial → Serial) (h h' : nat) (st : Monitor) :
  port_is_open h' (alter_port f h st)
  = if decide (h = h')
    then match ports st !! h with Some p => is_open (f p) | None => false end
    else port_is_open h' st.
Proof.
  unfold port_is_open, alter_port. simpl. rewrite list_lookup_alter.
  case_decide; subst; [|done]. by destruct (ports st !! h').
Qed.

Lemma thread_is_alive_alter (f : SerialReader → SerialReader) (t t' : nat)
  (st : Monitor) :
  thread_is_alive t' (alter_thread f t st)
  = if decide (t = t')
    then match threads st !! t with
         | Some th => is_alive (f th) | None => false end
    else thread_is_alive t' st.
Proof.
  unfold thread_is_alive, alter_thread. simpl. rewrite list_lookup_alter.
  case_decide; subst; [|done]. by destruct (threads st !! t').
Qed.

(** The exit a join waits for is the pass of the reader's loop that finds
    the flag set. *)
Lemma join_exit_is_a_pass (t : nat) (r : read_outcome)
  (now : Clock.datetime) (st : Monitor) :
  thread_is_alive t st = true → stop_event st = true →
  run_iter t r now st = alter_thread (set_is_alive false) t st.
Proof.
  unfold thread_is_alive, run_iter.
  destruct (threads st !! t) as [th|]; [|done]. by intros -> ->.
Qed.

(** The first [try]: the flag is set, the ports are not touched, and the
    reader is alive afterwards only if it was and the join did not see it
    exit. *)
Lemma stop_and_join_spec (j : join_outcome) (st : Monitor) :
  let st1 := state_of (stop_and_join j st) in
  stop_event st1 = true ∧ ports st1 = ports st ∧ ser st1 = ser st
  ∧ reader st1 = reader st ∧ console st1 = console st
  ∧ queue st1 = queue st
  ∧ (∀ t, thread_is_alive t st1
          = thread_is_alive t st
            && negb (bool_decide (reader st = Some t) && join_exited j)).
Proof.
  cbn zeta. unfold stop_and_join. simpl.
  destruct (reader st) as [t|] eqn:Hrd; simpl.
  { change (thread_is_alive t (set_stop_event true st))
      with (thread_is_alive t st).
    destruct (thread_is_alive t st) eqn:Ht; [destruct j|]; simpl;
      split_and!; try done; intros t';
      rewrite ?thread_is_alive_alter;
      change (thread_is_alive t' (set_stop_event true st))
        with (thread_is_alive t' st);
      repeat case_bool_decide; repeat case_decide; simplify_eq; simpl;
      rewrite ?andb_true_r, ?andb_false_r; try done;
      first [ by rewrite Ht | by destruct (threads st !! t') ]. }
  split_and!; try done. intros t. by rewrite andb_true_r.
Qed.

(** The second [try]: the handle is open afterwards only if it was and the
    close did not go through; threads and flag are not touched. *)
Lemma close_port_spec (c : close_outcome) (st : Monitor) :
  let st2 := state_of (close_port c st) in
  stop_event st2 = stop_event st ∧ threads st2 = threads st
  ∧ ser st2 = ser st ∧ reader st2 = reader st ∧ console st2 = console st
  ∧ queue st2 = queue st
  ∧ (∀ h, port_is_open h st2
          = port_is_open h st
            && negb (bool_decide (ser st = Some h) && close_ok c)).
Proof.
  cbn zeta. unfold close_port.
  destruct (ser st) as [h|] eqn:Hser; simpl.
  { destruct (port_is_open h st) eqn:Hh; [destruct c|]; simpl;
      split_and!; try done; intros h';
      rewrite ?port_is_open_alter;
      repeat case_bool_decide; repeat case_decide; simplify_eq; simpl;
      rewrite ?andb_true_r, ?andb_false_r; try done;
      first [ by rewrite Hh | by destruct (ports st !! h') ]. }
  split_and!; try done. intros h. by rewrite andb_true_r.
Qed.

(** The teardown, step by step. *)
Lemma disconnect_serial_spec (j : join_outcome) (c : close_outcome)
  (st : Monitor) :
  let st1 := state_of (stop_and_join j st) in
  let st2 := state_of (close_port c st1) in
  let st' := state_of (disconnect_serial j c st) in
  disconnect_serial j c st = Returns st'
  ∧ stop_event st1 = true ∧ ports st1 = ports st
  ∧ threads st2 = threads st1
  ∧ ports st' = ports st2 ∧ threads st' = threads st2
  ∧ stop_event st' = true ∧ ser st' = None ∧ reader st' = None
  ∧ (∀ h, port_is_open h st'
          = port_is_open h st
            && negb (bool_decide (ser st = Some h) && close_ok c))
  ∧ (∀ t, thread_is_alive t st'
          = thread_is_alive t st
            && negb (bool_decide (reader st = Some t) && join_exited j)).
Proof.
  cbn zeta.
  destruct (stop_and_join_spec j st)
    as (Hstop1 & Hports1 & Hser1 & Hrd1 & _ & _ & Halive1).
  destruct (close_port_spec c (state_of (stop_and_join j st)))
    as (Hstop2 & Hthr2 & Hser2 & Hrd2 & _ & _ & Hopen2).
  unfold disconnect_serial, except_pass. cbn [state_of].
  split_and!; try done.
  - simpl. congruence.
  - intros h. rewrite <- Hser1.
    change (port_is_open h st) with
      (match ports st !! h with Some p => is_open p | None => false end).
    rewrite <- Hports1. apply Hopen2.
  - intros t. rewrite <- Halive1. unfold thread_is_alive. simpl.
    by rewrite Hthr2.
Qed.

(** The traced teardown is the teardown, and its calls are: set the flag;
    ask the reader, if there is one, whether it is alive and join it for a
    second if it is; then ask the handle, if there is one, whether it is
    open and close it if it is. *)
Lemma stop_and_join_traced_spec (j : join_outcome) (st : Monitor) :
  stop_and_join_traced j st
  = (stop_and_join j st,
     Event_set
     :: match reader st with
        | Some t =>
            Thread_is_alive t
            :: (if thread_is_alive t st then [Thread_join t 1000] else [])
        | None => []
        end).
Proof.
  unfold stop_and_join_traced, stop_and_join.
  change (reader (set_stop_event true st)) with (reader st).
  destruct (reader st) as [t|]; [|done].
  change (thread_is_alive t (set_stop_event true st))
    with (thread_is_alive t st).
  destruct (thread_is_alive t st); [|done]. by destruct j.
Qed.

Lemma close_port_traced_spec (c : close_outcome) (st : Monitor) :
  close_port_traced c st
  = (close_port c st,
     match ser st with
     | Some h =>
         Serial_is_open h
         :: (if port_is_open h st then [Serial_close h] else [])
     | None => []
     end).
Proof.
  unfold close_port_traced, close_port.
  destruct (ser st) as [h|]; [|done].
  destruct (port_is_open h st); [|done]. by destruct c.
Qed.

Lemma disconnect_serial_traced_spec (j : join_outcome) (c : close_outcome)
  (st : Monitor) :
  disconnect_serial_traced j c st
  = (disconnect_serial j c st,
     Event_set
     :: match reader st with
        | Some t =>
            Thread_is_alive t
            :: (if thread_is_alive t st then [Thread_join t 1000] else [])
        | None => []
        end
     ++ match ser st with
        | Some h =>
            Serial_is_open h
            :: (if port_is_open h st then [Serial_close h] else [])
        | None => []
        end).
Proof.
  unfold disconnect_serial_traced.
  rewrite stop_and_join_traced_spec, close_port_traced_spec.
  destruct (stop_and_join_spec j st) as (_ & Hports & Hser & _).
  cbn zeta in Hports, Hser.
  change (state_of (except_pass (stop_and_join j st)))
    with (state_of (stop_and_join j st)).
  rewrite Hser. unfold port_is_open. rewrite Hports.
  reflexivity.
Qed.

(** C6, as the code has it.  [disconnect_serial] always returns: what the
    two [try] blocks raise is swallowed.  Its calls are, in this order: set
    the stop flag; ask the reader whether it is alive and, if so, join it
    with a timeout of one second; only then ask the handle whether it is
    open and, if so, close it.  So the flag is set first, a join is always
    the bounded one on the controller's live reader, a close is always on
    the controller's open handle, and no close comes before a join.  Then
    both references are dropped.  Afterwards the flag is set and the
    controller holds neither handle nor reader.  The controller's handle is
    closed unless it was open and the close raised; the controller's reader
    is no longer running unless it was alive and the bounded join did not
    see it exit.  No other handle or thread is affected. *)
Theorem disconnect_serial_teardown (j : join_outcome) (c : close_outcome)
  (st : Monitor) :
  let st1 := state_of (stop_and_join j st) in
  let st2 := state_of (close_port c st1) in
  let st' := state_of (disconnect_serial j c st) in
  let calls := (disconnect_serial_traced j c st).2 in
  (disconnect_serial j c st = Returns st'
   ∧ stop_event st1 = true ∧ ports st1 = ports st
   ∧ threads st2 = threads st1
   ∧ ports st' = ports st2 ∧ threads st' = threads st2
   ∧ stop_event st' = true ∧ ser st' = None ∧ reader st' = None
   ∧ (∀ h, port_is_open h st'
           = port_is_open h st
             && negb (bool_decide (ser st = Some h) && close_ok c))
   ∧ (∀ t, thread_is_alive t st'
           = thread_is_alive t st
             && negb (bool_decide (reader st = Some t) && join_exited j)))
  ∧ (disconnect_serial_traced j c st).1 = disconnect_serial j c st
  ∧ calls
    = Event_set
      :: match reader st with
         | Some t =>
             Thread_is_alive t
             :: (if thread_is_alive t st then [Thread_join t 1000] else [])
         | None => []
         end
      ++ match ser st with
         | Some h =>
             Serial_is_open h
             :: (if port_is_open h st then [Serial_close h] else [])
         | None => []
         end
  ∧ calls !! 0 = Some Event_set
  ∧ (∀ i t ms, calls !! i = Some (Thread_join t ms) →
       ms = 1000%Z ∧ reader st = Some t ∧ thread_is_alive t st = true)
  ∧ (∀ k h, calls !! k = Some (Serial_close h) →
       ser st = Some h ∧ port_is_open h st = true)
  ∧ (∀ i k t ms h,
       calls !! i = Some (Thread_join t ms) →
       calls !! k = Some (Serial_close h) → i < k)
  ∧ (∀ i k t h,
       calls !! i = Some (Thread_is_alive t) →
       calls !! k = Some (Serial_is_open h) → i < k).
Proof.
  cbn zeta. split; [apply disconnect_serial_spec|].
  rewrite disconnect_serial_traced_spec. cbn [fst snd].
  split; [done|]. split; [done|]. split; [done|].
  destruct (reader st) as [t0|]; [destruct (thread_is_alive t0 st) eqn:Ht|];
    (destruct (ser st) as [h0|];
       [destruct (port_is_open h0 st) eqn:Hh|]);
    cbn [app]; split_and!; intros;
    repeat match goal with
           | H : (_ :: _) !! ?i = Some _ |- _ =>
               destruct i; cbn [lookup list_lookup] in H
           | H : [] !! _ = Some _ |- _ => by destruct H
           end;
    simplify_eq; try done; lia.
Qed.

(** C6 as stated fails: when the bounded join times out the reader is still
    running after [disconnect_serial] has returned, and when the close
    raises the handle is still open; the controller has dropped both. *)
Lemma disconnect_serial_reader_survives :
  let st' := state_of (disconnect_serial JoinTimedOut
                         (CloseFails Scenario.io_error) Scenario.online) in
  let st'' := state_of (disconnect_serial JoinTimedOut CloseOk
                          Scenario.online) in
  thread_is_alive 0 Scenario.online = true
  ∧ port_is_open 0 Scenario.online = true
  ∧ thread_is_alive 0 st' = true ∧ port_is_open 0 st' = true
  ∧ reader st' = None ∧ ser st' = None
  ∧ thread_is_alive 0 st'' = true ∧ port_is_open 0 st'' = false.
Proof. vm_compute. done. Qed.

(** Tearing down a controller that is already disconnected only shows the
    status message again. *)
Lemma disconnect_serial_idle (j : join_outcome) (c : close_outcome)
  (st : Monitor) :
  reader st = None → ser st = None → stop_event st = true →
  connect_btn st = Py.lit "Connect" → port_box_enabled st = true →
  state_of (disconnect_serial j c st)
  = showMessage (Py.lit "Disconnected") 2000 st.
Proof.
  destruct st. cbn [reader ser stop_event connect_btn port_box_enabled].
  intros -> -> -> -> ->. reflexivity.
Qed.

(** C10. Whatever the join and the close did, [disconnect_serial] returns
    with both references [None], the button reading "Connect" and the port
    selector enabled; a second call changes nothing but the status bar,
    which shows "Disconnected" once more. *)
Theorem disconnect_serial_resets (j j' : join_outcome)
  (c c' : close_outcome) (st : Monitor) :
  let st1 := state_of (disconnect_serial j c st) in
  let st2 := state_of (disconnect_serial j' c' st1) in
  disconnect_serial j c st = Returns st1
  ∧ reader st1 = None ∧ ser st1 = None
  ∧ connect_btn st1 = Py.lit "Connect" ∧ port_box_enabled st1 = true
  ∧ disconnect_serial j' c' st1 = Returns st2
  ∧ st2 = showMessage (Py.lit "Disconnected") 2000 st1.
Proof.
  cbn zeta.
  destruct (disconnect_serial_spec j c st)
    as (_ & _ & _ & _ & _ & _ & Hstop & _).
  cbn zeta in Hstop.
  split; [reflexivity|]. split; [reflexivity|]. split; [reflexivity|].
  split; [reflexivity|]. split; [reflexivity|]. split; [reflexivity|].
  by apply disconnect_serial_idle.
Qed.

End DisconnectClaims.

(** ** Claims about connect and disconnect cycles *)

Section CycleClaims.

(** Counting the elements of a store that satisfy a flag. *)
Lemma count_zero {A} (f : A → bool) (l : list A) :
  (∀ i x, l !! i = Some x → f x = false) →
  length (filter (λ x, f x = true) l) = 0.
Proof.
  induction l as [|y l IH]; intros H; [done|].
  rewrite filter_cons. pose proof (H 0 y eq_refl) as Hy.
  case_decide; [congruence|]. apply IH. intros i x Hi. by apply (H (S i)).
Qed.

Lemma count_le_one {A} (f : A → bool) (l : list A) (i0 : nat) :
  (∀ i x, l !! i = Some x → f x = true → i = i0) →
  length (filter (λ x, f x = true) l) ≤ 1.
Proof.
  revert i0. induction l as [|y l IH]; intros i0 H; simpl; [lia|].
  rewrite filter_cons. case_decide as Hy.
  - simpl. rewrite count_zero; [lia|].
    intros i x Hi. destruct (f x) eqn:Hx; [|done].
    pose proof (H 0 y eq_refl Hy). pose proof (H (S i) x Hi Hx). lia.
  - apply (IH (pred i0)). intros i x Hi Hx.
    pose proof (H (S i) x Hi Hx). lia.
Qed.

Lemma alive_count_le_one (st : Monitor) :
  only_reader_alive st → alive_count st ≤ 1.
Proof.
  intros H. unfold alive_count.
  destruct (reader st) as [t0|] eqn:Hrd.
  - apply (count_le_one is_alive _ t0). intros i th Hi Hth.
    assert (thread_is_alive i st = true) as Hal
      by (unfold thread_is_alive; by rewrite Hi).
    apply H in Hal. congruence.
  - rewrite (count_zero is_alive); [lia|]. intros i th Hi.
    destruct (is_alive th) eqn:Hth; [|done].
    assert (thread_is_alive i st = true) as Hal
      by (unfold thread_is_alive; by rewrite Hi).
    apply H in Hal. congruence.
Qed.

Lemma open_count_le_one (st : Monitor) :
  only_handle_open st → open_count st ≤ 1.
Proof.
  intros H. unfold open_count.
  destruct (ser st) as [h0|] eqn:Hser.
  - apply (count_le_one is_open _ h0). intros i p Hi Hp.
    assert (port_is_open i st = true) as Hop
      by (unfold port_is_open; by rewrite Hi).
    apply H in Hop. congruence.
  - rewrite (count_zero is_open); [lia|]. intros i p Hi.
    destruct (is_open p) eqn:Hp; [|done].
    assert (port_is_open i st = true) as Hop
      by (unfold port_is_open; by rewrite Hi).
    apply H in Hop. congruence.
Qed.

(** A controller that is not connected references nothing. *)
Lemma not_connected_no_refs (st : Monitor) :
  refs_wf st → connected st = false → ser st = None ∧ reader st = None.
Proof.
  intros [Hopen Hnone] Hc. unfold connected in Hc.
  destruct (ser st) as [h|] eqn:Hser; [|by auto].
  rewrite (Hopen h eq_refl) in Hc. done.
Qed.

Lemma alive_count_zero (st : Monitor) :
  refs_wf st → only_reader_alive st → connected st = false →
  alive_count st = 0.
Proof.
  intros Hwf H Hc. destruct (not_connected_no_refs st Hwf Hc) as [_ Hrd].
  unfold alive_count. apply (count_zero is_alive). intros i th Hi.
  destruct (is_alive th) eqn:Hth; [|done].
  assert (thread_is_alive i st = true) as Hal
    by (unfold thread_is_alive; by rewrite Hi).
  apply H in Hal. congruence.
Qed.

Lemma open_count_zero (st : Monitor) :
  refs_wf st → only_handle_open st → connected st = false →
  open_count st = 0.
Proof.
  intros Hwf H Hc. destruct (not_connected_no_refs st Hwf Hc) as [Hser _].
  unfold open_count. apply (count_zero is_open). intros i p Hi.
  destruct (is_open p) eqn:Hp; [|done].
  assert (port_is_open i st = true) as Hop
    by (unfold port_is_open; by rewrite Hi).
  apply H in Hop. congruence.
Qed.

(** The three invariants pass to a state that keeps the link. *)
Lemma link_kept_inv (st st' : Monitor) :
  link_kept st st' →
  (refs_wf st → refs_wf st')
  ∧ (only_reader_alive st → only_reader_alive st')
  ∧ (only_handle_open st → only_handle_open st').
Proof.
  intros (Hser & Hrd & Hopen & Halive). split_and!.
  - intros [H1 H2]. split.
    + intros h Hh. rewrite Hopen. apply H1. congruence.
    + intros Hn. rewrite Hrd. apply H2. congruence.
  - intros H t Ht. rewrite Hrd. by apply H, Halive.
  - intros H h Hh. rewrite Hser. apply H. by rewrite <- Hopen.
Qed.

Lemma link_kept_refl (st : Monitor) : link_kept st st.
Proof. by split_and!. Qed.

Lemma append_text_link (text : list Z) (st : Monitor) :
  link_kept st (append_text text st).
Proof.
  destruct (append_text_frame text st)
    as (Hser & Hrd & _ & _ & Hports & Hthr & _).
  unfold link_kept, port_is_open, thread_is_alive.
  rewrite Hser, Hrd, Hports, Hthr. by split_and!.
Qed.

Lemma run_iter_link (t : nat) (r : read_outcome) (now : Clock.datetime)
  (st : Monitor) : link_kept st (run_iter t r now st).
Proof.
  unfold run_iter. repeat case_match; try apply link_kept_refl;
    (split_and!; [done|done|done|]); intros t';
    rewrite ?thread_is_alive_alter; try case_decide; subst; try done;
    simpl; by simplify_option_eq.
Qed.

Lemma flush_queue_link (st : Monitor) : link_kept st (flush_queue st).
Proof. rewrite flush_queue_spec. cbn zeta. by case_match. Qed.

Lemma send_text_link (w : write_outcome) (st : Monitor) :
  link_kept st (state_of (send_text w st)).
Proof.
  unfold send_text. destruct (connected st); cbn [negb state_of].
  2:{ by split_and!. }
  destruct w; [|apply append_text_link].
  destruct (ser st) as [h|] eqn:Hser; cbn [state_of].
  2:{ case_match; by split_and!; simpl. }
  assert (link_kept st (alter_port (add_tx (send_data st)) h st)) as H.
  { split_and!; try done. intros h'. rewrite port_is_open_alter.
    case_decide; subst; [|done]. unfold port_is_open.
    by destruct (ports st !! h'). }
  by case_match.
Qed.

Lemma showMessage_link (msg : list Z) (ms : Z) (st : Monitor) :
  link_kept st (showMessage msg ms st).
Proof. by split_and!. Qed.

Lemma link_kept_trans (st1 st2 st3 : Monitor) :
  link_kept st1 st2 → link_kept st2 st3 → link_kept st1 st3.
Proof.
  intros (Hs1 & Hr1 & Ho1 & Ha1) (Hs2 & Hr2 & Ho2 & Ha2). split_and!.
  - congruence.
  - congruence.
  - intros h. by rewrite Ho2.
  - intros t Ht. by apply Ha1, Ha2.
Qed.

(** Appending to a store and reading it back. *)
Lemma lookup_snoc_cases {A} (l : list A) (x : A) (i : nat) :
  (l ++ [x]) !! i
  = if decide (i = length l) then Some x else l !! i.
Proof.
  case_decide; subst.
  - by rewrite list_lookup_middle.
  - destruct (decide (i < length l)).
    + by rewrite lookup_app_l.
    + rewrite !lookup_ge_None_2; [done|lia|rewrite length_app; simpl; lia].
Qed.

(** A click on Connect while disconnected. *)
Lemma connect_serial_inv (o : open_outcome) (st : Monitor) :
  refs_wf st → connected st = false →
  let st' := state_of (connect_serial o st) in
  refs_wf st'
  ∧ (only_reader_alive st → only_reader_alive st')
  ∧ (only_handle_open st → only_handle_open st').
Proof.
  intros Hwf Hc. cbn zeta.
  destruct (not_connected_no_refs st Hwf Hc) as [Hser Hrd].
  unfold connect_serial.
  destruct (length (port_box st) =? 0).
  { cbn [state_of].
    destruct (link_kept_inv _ _ (append_text_link
      (Py.lit "[INFO] No ports to open." ++ [Py.LF]) st)) as (?&?&?); auto. }
  destruct (Py.int_of_str _) as [baud|]; [|by cbn [state_of]].
  destruct o as [|e]; cbn zeta; cbn [state_of].
  2:{ match goal with |- context [showMessage ?m ?ms (append_text ?x st)] =>
        destruct (link_kept_inv _ _ (link_kept_trans _ _ _
          (append_text_link x st) (showMessage_link m ms _))) as (?&?&?)
      end; auto. }
  split_and!.
  - split; [|done]. intros h [= <-]. unfold port_is_open. simpl.
    by rewrite lookup_snoc_cases, decide_True.
  - intros Hinv t. unfold thread_is_alive. simpl.
    rewrite list_lookup_alter, lookup_snoc_cases.
    destruct (decide (length (threads st) = t)) as [->|Hne].
    { done. }
    rewrite lookup_snoc_cases, decide_False by done. intros Ht.
    assert (thread_is_alive t st = true) as Hal by done.
    apply Hinv in Hal. congruence.
  - intros Hinv h. unfold port_is_open. simpl.
    rewrite lookup_snoc_cases.
    destruct (decide (h = length (ports st))) as [->|Hne]; [done|].
    intros Hh. assert (port_is_open h st = true) as Hop by done.
    apply Hinv in Hop. congruence.
Qed.

(** A click on Disconnect. *)
Lemma disconnect_serial_inv (j : join_outcome) (c : close_outcome)
  (st : Monitor) :
  let st' := state_of (disconnect_serial j c st) in
  refs_wf st'
  ∧ (only_reader_alive st → join_exited j = true → only_reader_alive st')
  ∧ (only_handle_open st → close_ok c = true → only_handle_open st').
Proof.
  cbn zeta.
  destruct (disconnect_serial_spec j c st)
    as (_ & _ & _ & _ & _ & _ & _ & Hser & Hrd & Hopen & Halive).
  cbn zeta in *. split_and!.
  - split; [|done]. intros h. by rewrite Hser.
  - intros Hinv Hj t. rewrite Halive, Hj, andb_true_r.
    intros [Ht Hn]%andb_true_iff. apply Hinv in Ht.
    rewrite bool_decide_eq_true_2 in Hn; done.
  - intros Hinv Hc h. rewrite Hopen, Hc, andb_true_r.
    intros [Hh Hn]%andb_true_iff. apply Hinv in Hh.
    rewrite bool_decide_eq_true_2 in Hn; done.
Qed.

(** Every event keeps the references well formed; it keeps the reader
    invariant if its join sees the exit, and the handle invariant if its
    close goes through. *)
Lemma step_inv (ev : event) (st : Monitor) :
  refs_wf st →
  refs_wf (step st ev)
  ∧ (only_reader_alive st → joins_exit [ev] = true →
     only_reader_alive (step st ev))
  ∧ (only_handle_open st → closes_ok [ev] = true →
     only_handle_open (step st ev)).
Proof.
  intros Hwf.
  destruct ev as [o j c|w| |found|text|i|i|i|b|b|b|t r now|]; simpl;
    try (destruct (link_kept_inv st st (link_kept_refl st)) as (?&?&?);
         by auto).
  - unfold toggle_connection. destruct (connected st) eqn:Hc.
    + rewrite !andb_true_r. apply disconnect_serial_inv.
    + destruct (connect_serial_inv o st Hwf Hc) as (?&?&?). auto.
  - destruct (link_kept_inv _ _ (send_text_link w st)) as (?&?&?). auto.
  - case_match; [|by auto]. by auto.
  - destruct (link_kept_inv _ _ (run_iter_link t r now st)) as (?&?&?). auto.
  - destruct (link_kept_inv _ _ (flush_queue_link st)) as (?&?&?). auto.
Qed.

Lemma run_events_inv (evs : list event) (st : Monitor) :
  refs_wf st →
  refs_wf (run_events evs st)
  ∧ (only_reader_alive st → joins_exit evs = true →
     only_reader_alive (run_events evs st))
  ∧ (only_handle_open st → closes_ok evs = true →
     only_handle_open (run_events evs st)).
Proof.
  revert st. induction evs as [|ev evs IH]; intros st Hwf; [by auto|].
  destruct (step_inv ev st Hwf) as (Hwf' & Hr & Hp).
  destruct (IH (step st ev) Hwf') as (Hwf'' & Hr' & Hp').
  change (run_events (ev :: evs) st) with (run_events evs (step st ev)).
  unfold joins_exit, closes_ok in *. simpl in *.
  split_and!; [done|..].
  - intros H [H1 H2]%andb_true_iff. apply Hr'; [|done]. apply Hr; [done|].
    by rewrite H1.
  - intros H [H1 H2]%andb_true_iff. apply Hp'; [|done]. apply Hp; [done|].
    by rewrite H1.
Qed.

Lemma init_inv (found : list (list Z * list Z)) :
  refs_wf (init found) ∧ only_reader_alive (init found)
  ∧ only_handle_open (init found).
Proof.
  split_and!.
  - split; [|done]. by intros h.
  - by intros t.
  - by intros h.
Qed.

(** C7, as the code has it.  In every run in which each bounded join of a
    disconnect sees the reader exit (a click that connects does not consult
    its join and close answers), at most one reader thread is alive at any
    time, and whenever the controller is not connected, which is when a
    click connects, no reader is alive.  If moreover each close goes
    through, at most one handle is open at any time and none while the
    controller is not connected. *)
Theorem one_reader_at_a_time (found : list (list Z * list Z))
  (evs : list event) :
  joins_exit evs = true →
  let st := run_events evs (init found) in
  alive_count st ≤ 1
  ∧ (connected st = false → alive_count st = 0)
  ∧ (∀ o j c, connected st = false →
       toggle_connection o j c st = connect_serial o st)
  ∧ (∀ o j c, connected st = true →
       toggle_connection o j c st = disconnect_serial j c st)
  ∧ (closes_ok evs = true →
     open_count st ≤ 1 ∧ (connected st = false → open_count st = 0)).
Proof.
  intros Hj. cbn zeta.
  destruct (init_inv found) as (Hwf0 & Hr0 & Hp0).
  destruct (run_events_inv evs (init found) Hwf0) as (Hwf & Hr & Hp).
  specialize (Hr Hr0 Hj). split_and!.
  - by apply alive_count_le_one.
  - by apply alive_count_zero.
  - intros o j c Hc. unfold toggle_connection. by rewrite Hc.
  - intros o j c Hc. unfold toggle_connection. by rewrite Hc.
  - intros Hc. specialize (Hp Hp0 Hc). split.
    + by apply open_count_le_one.
    + by apply open_count_zero.
Qed.

(** Three clicks, connect, disconnect, connect, with every join seeing the
    reader exit: one reader alive at the end. *)
Lemma one_reader_at_a_time_cycle :
  let st := run_events
              [Click_connect OpenOk JoinExited CloseOk;
               Click_connect OpenOk JoinExited CloseOk;
               Click_connect OpenOk JoinExited CloseOk]
              (init Scenario.found) in
  alive_count st ≤ 1
  ∧ (connected st = false → alive_count st = 0)
  ∧ (∀ o j c, connected st = false →
       toggle_connection o j c st = connect_serial o st)
  ∧ (∀ o j c, connected st = true →
       toggle_connection o j c st = disconnect_serial j c st)
  ∧ (closes_ok [Click_connect OpenOk JoinExited CloseOk;
                Click_connect OpenOk JoinExited CloseOk;
                Click_connect OpenOk JoinExited CloseOk] = true →
     open_count st ≤ 1 ∧ (connected st = false → open_count st = 0)).
Proof.
  apply (one_reader_at_a_time Scenario.found
           [Click_connect OpenOk JoinExited CloseOk;
            Click_connect OpenOk JoinExited CloseOk;
            Click_connect OpenOk JoinExited CloseOk]).
  reflexivity.
Defined.

(** C7 as stated fails: connect, disconnect with the join timing out,
    connect again.  The first reader is still alive when the second is
    started, and the second connect has cleared the stop flag it was asked
    to observe. *)
Lemma two_readers_alive :
  let st := run_events
              [Click_connect OpenOk JoinExited CloseOk;
               Click_connect OpenOk JoinTimedOut CloseOk;
               Click_connect OpenOk JoinExited CloseOk]
              (init Scenario.found) in
  alive_count st = 2
  ∧ thread_is_alive 0 st = true ∧ thread_is_alive 1 st = true
  ∧ reader st = Some 1 ∧ stop_event st = false.
Proof. vm_compute. done. Qed.

End CycleClaims.

(** ** Claims about saving the log *)

Section SaveClaims.
Local Open Scope Z_scope.

Lemma encode_strict_encodable (s : list Z) :
  Utf8.encodable s = true →
  Utf8.encode Utf8.Strict s = inr (Utf8.encode_replace s).
Proof. apply encode_from_strict. Qed.

Lemma encode_strict_not_encodable (s : list Z) :
  Utf8.encodable s = false → ∃ err, Utf8.encode Utf8.Strict s = inl err.
Proof.
  intros H. destruct (Utf8.encode Utf8.Strict s) as [err|bs] eqn:E.
  - by exists err.
  - apply encode_from_strict_inv in E. unfold Utf8.encodable in H. congruence.
Qed.

(** Reading back with universal newlines undoes the platform's line
    separator, on a text without carriage returns. *)
Lemma universal_newlines_id (s : list Z) :
  Py.CR ∉ s → Py.universal_newlines s = s.
Proof.
  induction s as [|c s IH]; [done|]. intros [Hc Hs]%not_elem_of_cons.
  simpl. destruct (Z.eqb_spec c Py.CR); [done|]. by rewrite IH.
Qed.

Lemma universal_newlines_crlf (s : list Z) :
  Py.CR ∉ s →
  Py.universal_newlines (Py.replace_char Py.LF [Py.CR; Py.LF] s) = s.
Proof.
  induction s as [|c s IH]; [done|]. intros [Hc Hs]%not_elem_of_cons.
  simpl. destruct (Z.eqb_spec c Py.LF) as [->|Hne]; simpl.
  - by rewrite IH.
  - destruct (Z.eqb_spec c Py.CR); [done|]. by rewrite IH.
Qed.

Lemma replace_char_scalar (linesep s : list Z) :
  Forall Utf8.scalar linesep → Forall Utf8.scalar s →
  Forall Utf8.scalar (Py.replace_char Py.LF linesep s).
Proof.
  intros Hl. induction 1 as [|c s Hc Hs IH]; simpl; [done|].
  apply Forall_app. split; [|done]. case_match; [done|]. by constructor.
Qed.

(** What the text widget gives back. *)
Lemma plain_char_not_special (c : Z) : Qt.special (Qt.plain_char c) = false.
Proof.
  unfold Qt.special, Qt.plain_char, Qt.NBSP, Qt.LINE_SEPARATOR,
    Qt.PARAGRAPH_SEPARATOR, Qt.BEGINNING_OF_FRAME, Qt.END_OF_FRAME,
    Qt.SPACE, Py.CR, Py.LF.
  destruct (Z.eqb_spec c 160); [done|].
  destruct (Z.eqb_spec c 13); [done|].
  destruct (Z.eqb_spec c 8232); [done|].
  destruct (Z.eqb_spec c 8233); [done|].
  destruct (Z.eqb_spec c 64976); [done|].
  destruct (Z.eqb_spec c 64977); [done|].
  cbn [orb]. by rewrite !(proj2 (Z.eqb_neq _ _)).
Qed.

Lemma plain_char_id (c : Z) : Qt.special c = false → Qt.plain_char c = c.
Proof.
  unfold Qt.special, Qt.plain_char. intros H.
  repeat (apply orb_false_iff in H as [H ?]).
  by repeat match goal with H : (_ =? _) = false |- _ => rewrite H; clear H end.
Qed.

Lemma paragraph_text_not_special (l : list Z) :
  Forall (λ c, Qt.special c = false) (Qt.paragraph_text l).
Proof.
  induction l as [|c rest IH]; [constructor|].
  cbn [Qt.paragraph_text]. destruct rest as [|d rest'].
  - constructor; [apply plain_char_not_special|constructor].
  - case_match; [done|]. constructor; [apply plain_char_not_special|done].
Qed.

Lemma paragraph_text_no_CR (l : list Z) :
  Py.CR ∉ l → Qt.paragraph_text l = map Qt.plain_char l.
Proof.
  induction l as [|c rest IH]; [done|].
  intros [Hc Hrest]%not_elem_of_cons.
  cbn [Qt.paragraph_text]. destruct rest as [|d rest']; [done|].
  destruct (Z.eqb_spec c Py.CR); [done|]. cbn [andb map].
  by rewrite IH.
Qed.

Lemma special_CR (l : list Z) :
  Forall (λ c, Qt.special c = false) l → Py.CR ∉ l.
Proof.
  intros H Hin. rewrite Forall_forall in H. by specialize (H _ Hin).
Qed.

Lemma paragraph_text_plain (l : list Z) :
  Forall (λ c, Qt.special c = false) l → Qt.paragraph_text l = l.
Proof.
  intros H. rewrite paragraph_text_no_CR by (by apply special_CR).
  induction H as [|c l Hc Hl IH]; [done|].
  cbn [map]. by rewrite plain_char_id, IH.
Qed.

Lemma join_lines_Forall (P : Z → Prop) (ls : list (list Z)) :
  P Py.LF → Forall (Forall P) ls → Forall P (Py.join_lines ls).
Proof.
  intros HLF. induction 1 as [|l ls Hl Hls IH]; [constructor|].
  cbn [Py.join_lines]. destruct ls as [|l' ls']; [done|].
  apply Forall_app. split; [done|]. by constructor.
Qed.

Lemma join_lines_map (f : Z → Z) (ls : list (list Z)) :
  f Py.LF = Py.LF → Py.join_lines (map (map f) ls) = map f (Py.join_lines ls).
Proof.
  intros HLF. induction ls as [|l ls IH]; [done|].
  cbn [map Py.join_lines]. destruct ls as [|l' ls']; [done|].
  rewrite IH. cbn [map]. by rewrite map_app, map_cons, HLF.
Qed.

Lemma skip_empty_Forall {A} (P : A → Prop) (ls : list (list Z))
  (f : list Z → A) :
  Forall P (map f ls) → Forall P (map f (Qt.skip_empty ls)).
Proof.
  induction ls as [|l ls IH]; [done|]. intros H.
  destruct l as [|c l]; [|done]. cbn [Qt.skip_empty].
  apply IH. by inversion H.
Qed.

Lemma paragraph_text_cons (c : Z) (r : list Z) :
  c ≠ 13 ∨ head r ≠ Some 10 →
  Qt.paragraph_text (c :: r) = Qt.plain_char c :: Qt.paragraph_text r.
Proof.
  intros H. cbn [Qt.paragraph_text]. destruct r as [|d r']; [done|].
  destruct (Z.eqb_spec c Py.CR) as [->|]; [|done].
  destruct (Z.eqb_spec d Py.LF) as [->|]; [|done].
  by destruct H.
Qed.

Lemma special_iff (c : Z) :
  Qt.special c = true ↔ c ∈ [13; 0xA0; 0x2028; 0x2029; 0xFDD0; 0xFDD1].
Proof.
  unfold Qt.special, Qt.NBSP, Qt.LINE_SEPARATOR, Qt.PARAGRAPH_SEPARATOR,
    Qt.BEGINNING_OF_FRAME, Qt.END_OF_FRAME, Py.CR.
  rewrite !orb_true_iff, !Z.eqb_eq, !elem_of_cons, elem_of_nil. tauto.
Qed.

(** The plain text of the console: none of the characters the widget
    converts is left in it; it is the appended lines themselves when they
    hold none, and otherwise their image, character by character, when
    they hold no carriage return. *)
Lemma toPlainText_spec (st : Monitor) :
  Forall (λ c, Qt.special c = false) (toPlainText st)
  ∧ (Forall (Forall (λ c, Qt.special c = false)) (console st) →
     toPlainText st = Py.join_lines (Qt.skip_empty (console st)))
  ∧ (Forall (λ l, Py.CR ∉ l) (console st) →
     toPlainText st
     = map Qt.plain_char (Py.join_lines (Qt.skip_empty (console st)))).
Proof.
  unfold toPlainText, Qt.plain_text. split_and!.
  - apply join_lines_Forall; [done|].
    apply Forall_fmap, Forall_forall. intros l _.
    apply paragraph_text_not_special.
  - intros H. f_equal.
    assert (Forall (Forall (λ c, Qt.special c = false))
              (Qt.skip_empty (console st))) as H'.
    { rewrite <- (map_id (Qt.skip_empty _)).
      apply (skip_empty_Forall _ _ id). by rewrite map_id. }
    induction H' as [|l ls Hl Hls IH]; [done|].
    cbn [map]. by rewrite paragraph_text_plain, IH.
  - intros H. rewrite <- join_lines_map by done. f_equal.
    assert (Forall (λ l, Py.CR ∉ l) (Qt.skip_empty (console st))) as H'.
    { rewrite <- (map_id (Qt.skip_empty _)).
      apply (skip_empty_Forall _ _ id). by rewrite map_id. }
    induction H' as [|l ls Hl Hls IH]; [done|].
    cbn [map]. by rewrite paragraph_text_no_CR, IH.
Qed.

(** C8, as the code has it.  Once a path is chosen, [save_log] leaves the
    window as it was except for one status message, and leaves every other
    file alone.  When the file opens and writes and the text has no lone
    surrogate, the file holds the UTF-8 encoding of [toPlainText()] with
    each line feed written as the platform's line separator, and the
    message is "Saved: <path>"; otherwise the message is "Save failed:
    ...".  The stored bytes decode to the stored text; where the separator
    is the line feed that is [toPlainText()] itself, byte for byte, and
    reading back with universal newlines gives [toPlainText()] for either
    separator.  [toPlainText()] is not always the lines as they were
    appended: it holds no carriage return, no-break space, line or
    paragraph separator and no frame marker; it is the appended lines
    joined by line feeds when they hold none of these (the empty lines
    appended first apart), and otherwise, for lines without carriage
    return, what [Qt.plain_char] makes of each character: a space for the
    no-break space, a line feed for the separators.  In general it is the
    lines joined by line feeds, the empty lines appended first left out,
    each line read character by character: a carriage return followed by a
    line feed gives that line feed alone, every other character what
    [Qt.plain_char] makes of it. *)
Theorem save_log_writes (path linesep : list Z) (io : file_outcome)
  (st : Monitor) (files : gmap (list Z) (list Z)) :
  Py.truthy path = true →
  let text := toPlainText st in
  let stored := Py.replace_char Py.LF linesep text in
  let r := save_log path linesep io st files in
  console r.1 = console st
  ∧ (∃ msg ms, r.1 = showMessage msg ms st)
  ∧ (∀ path', path' ≠ path → r.2 !! path' = files !! path')
  ∧ (io = FileOk → Utf8.encodable stored = true →
     r = (showMessage (Py.lit "Saved: " ++ path) 3000 st,
          <[path := Utf8.encode_replace stored]> files)
     ∧ r.2 !! path = Some (Utf8.encode_replace stored))
  ∧ (io ≠ FileOk ∨ Utf8.encodable stored = false →
     ∃ msg, r.1 = save_failed msg st)
  ∧ (Forall Utf8.scalar linesep → Forall Utf8.scalar text →
     Utf8.decode Utf8.Strict (Utf8.encode_replace stored) = Some stored)
  ∧ (linesep = Py.LINESEP_POSIX → stored = text)
  ∧ (linesep = Py.LINESEP_POSIX ∨ linesep = Py.LINESEP_WINDOWS →
     Py.universal_newlines stored = text)
  ∧ Forall (λ c, Qt.special c = false) text
  ∧ (Forall (Forall (λ c, Qt.special c = false)) (console st) →
     text = Py.join_lines (Qt.skip_empty (console st)))
  ∧ (Forall (λ l, Py.CR ∉ l) (console st) →
     text = map Qt.plain_char (Py.join_lines (Qt.skip_empty (console st))))
  ∧ text = Py.join_lines (map Qt.paragraph_text (Qt.skip_empty (console st)))
  ∧ (∀ ls, Qt.skip_empty ([] :: ls) = Qt.skip_empty ls)
  ∧ (∀ c l ls, Qt.skip_empty ((c :: l) :: ls) = (c :: l) :: ls)
  ∧ Qt.paragraph_text [] = []
  ∧ (∀ l, Qt.paragraph_text (13 :: 10 :: l) = Qt.paragraph_text (10 :: l))
  ∧ (∀ c l, c ≠ 13 ∨ head l ≠ Some 10 →
       Qt.paragraph_text (c :: l) = Qt.plain_char c :: Qt.paragraph_text l)
  ∧ Qt.plain_char 0xA0 = 32
  ∧ Forall (λ c, Qt.plain_char c = 10) [13; 0x2028; 0x2029; 0xFDD0; 0xFDD1]
  ∧ (∀ c, Qt.special c = false → Qt.plain_char c = c)
  ∧ (∀ c, Qt.special c = true
          ↔ c ∈ [13; 0xA0; 0x2028; 0x2029; 0xFDD0; 0xFDD1]).
Proof.
  intros Hpath text stored r.
  assert (∃ msg ms, r.1 = showMessage msg ms st) as Hmsg.
  { subst r. unfold save_log. rewrite Hpath. simpl.
    repeat case_match; simpl; eauto. }
  destruct (toPlainText_spec st) as (Hspecial & Hplain & Hmap).
  assert (Py.CR ∉ text) as Hcr by (by apply special_CR).
  split_and!.
  - destruct Hmsg as (msg & ms & ->). done.
  - done.
  - intros path' Hne. subst r. unfold save_log. rewrite Hpath. simpl.
    repeat case_match; simpl; by rewrite ?lookup_insert_ne.
  - intros -> Henc. subst r. unfold save_log, file_bytes.
    rewrite Hpath. simpl. fold text. fold stored.
    rewrite encode_strict_encodable by done. simpl.
    split; [done|]. by rewrite lookup_insert_eq.
  - intros Hfail. subst r. unfold save_log, file_bytes.
    rewrite Hpath. simpl. fold text. fold stored.
    destruct (Utf8.encodable stored) eqn:Henc.
    + rewrite encode_strict_encodable by done.
      destruct io; simpl; [destruct Hfail; done|eauto..].
    + destruct (encode_strict_not_encodable _ Henc) as [err ->].
      destruct io; simpl; eauto.
  - intros Hl Ht. apply decode_encode. by apply replace_char_scalar.
  - intros ->. apply replace_char_id.
  - intros [->| ->].
    + subst stored. rewrite replace_char_id. by apply universal_newlines_id.
    + by apply universal_newlines_crlf.
  - exact Hspecial.
  - exact Hplain.
  - exact Hmap.
  - reflexivity.
  - reflexivity.
  - reflexivity.
  - reflexivity.
  - reflexivity.
  - apply paragraph_text_cons.
  - reflexivity.
  - by repeat constructor.
  - apply plain_char_id.
  - apply special_iff.
Qed.

(** Saving where the line separator is the line feed.  For the two
    received lines the file holds the console text itself; for the line
    with a no-break space it holds a space in its place. *)
Lemma save_log_writes_posix :
  let r := save_log Scenario.log_txt Py.LINESEP_POSIX FileOk
             Scenario.shown_hi_ok ∅ in
  let r' := save_log Scenario.log_txt Py.LINESEP_POSIX FileOk
              Scenario.shown_nbsp ∅ in
  r.2 !! Scenario.log_txt
  = Some (Py.lit "[12:00:00.000] hi" ++ [10] ++ Py.lit "[12:00:00.000] ok")
  ∧ console r.1 = console Scenario.shown_hi_ok
  ∧ console Scenario.shown_nbsp
    = [Py.lit "[12:00:00.000] a" ++ [0xA0] ++ Py.lit "b"]
  ∧ r'.2 !! Scenario.log_txt = Some (Py.lit "[12:00:00.000] a b").
Proof.
  destruct (save_log_writes Scenario.log_txt Py.LINESEP_POSIX FileOk
              Scenario.shown_hi_ok ∅ eq_refl) as (Hc & _ & _ & Hok & _).
  destruct (Hok eq_refl eq_refl) as [_ Hfile].
  destruct (save_log_writes Scenario.log_txt Py.LINESEP_POSIX FileOk
              Scenario.shown_nbsp ∅ eq_refl) as (_ & _ & _ & Hok' & _).
  destruct (Hok' eq_refl eq_refl) as [_ Hfile'].
  split; [exact Hfile|]. split; [exact Hc|]. split; [reflexivity|].
  exact Hfile'.
Defined.

(** C8 as stated fails where the platform's line separator is ["\r\n"]:
    the file written for the two received lines is not the UTF-8 encoding
    of the console text, it has a carriage return before the line feed. *)
Lemma save_log_crlf_bytes :
  let r := save_log Scenario.log_txt Py.LINESEP_WINDOWS FileOk
             Scenario.shown_hi_ok ∅ in
  toPlainText Scenario.shown_hi_ok
  = Py.lit "[12:00:00.000] hi" ++ [10] ++ Py.lit "[12:00:00.000] ok"
  ∧ Utf8.encode Utf8.Strict (toPlainText Scenario.shown_hi_ok)
    = inr (Py.lit "[12:00:00.000] hi" ++ [10] ++ Py.lit "[12:00:00.000] ok")
  ∧ r.2 !! Scenario.log_txt
    = Some (Py.lit "[12:00:00.000] hi" ++ [13; 10]
            ++ Py.lit "[12:00:00.000] ok").
Proof. vm_compute. done. Qed.

End SaveClaims.

(** * Further properties of the program *)

(** ** Invariants of a run *)

Section RunInvariants.

(** A property kept by every event holds along every run. *)
Lemma run_events_keeps (P : Monitor → Prop) :
  (∀ st ev, P st → P (step st ev)) →
  ∀ evs st, P st → P (run_events evs st).
Proof.
  intros Hstep evs. induction evs as [|ev evs IH]; intros st Hst; [done|].
  apply IH, Hstep, Hst.
Qed.

(** What a click on Connect leaves when it does not open a port, and when
    it does. *)
Lemma connect_serial_cases (o : open_outcome) (st : Monitor) :
  let st' := state_of (connect_serial o st) in
  (ser st' = ser st ∧ reader st' = reader st ∧ ports st' = ports st
   ∧ threads st' = threads st ∧ stop_event st' = stop_event st
   ∧ connect_btn st' = connect_btn st
   ∧ port_box_enabled st' = port_box_enabled st
   ∧ queue st' = queue st ∧ port_box st' = port_box st
   ∧ (o = OpenOk →
      port_box st = []
      ∨ Py.int_of_str (currentText baud_items (baud_box_index st)) = None))
  ∨ (o = OpenOk
     ∧ ser st' = Some (length (ports st))
     ∧ reader st' = Some (length (threads st))
     ∧ (∃ p, ports st' = ports st ++ [p] ∧ is_open p = true
             ∧ device p = chosen_device st)
     ∧ threads st'
       = threads st
         ++ [{| reader_ser := length (ports st); is_alive := true |}]
     ∧ stop_event st' = false
     ∧ connect_btn st' = Py.lit "Disconnect"
     ∧ port_box_enabled st' = false
     ∧ queue st' = queue st ∧ port_box st' = port_box st).
Proof.
  cbn zeta. unfold connect_serial.
  destruct (length (port_box st) =? 0) eqn:Hlen.
  { left. cbn [state_of].
    destruct (append_text_frame
                (Py.lit "[INFO] No ports to open." ++ [Py.LF]) st)
      as (?&?&?&?&?&?&?&?&_).
    split_and!; try done.
    - unfold append_text. by case_match.
    - intros _. left. by destruct (port_box st). }
  destruct (Py.int_of_str _) as [baud|] eqn:Hint.
  2:{ left. cbn [state_of]. split_and!; try done. intros _. by right. }
  destruct o as [|e]; cbn zeta; cbn [state_of].
  - right. split; [done|]. simpl.
    assert (∀ (l : list SerialReader) x f,
              alter f (length l) (l ++ [x]) = l ++ [f x]) as Halter.
    { intros l x f. induction l as [|y l IH]; simpl; [done|]. by f_equal. }
    rewrite Halter. split_and!; try done. by eexists.
  - left.
    match goal with |- context [append_text ?x st] =>
      destruct (append_text_frame x st) as (?&?&?&?&?&?&?&?&_);
      assert (port_box (append_text x st) = port_box st)
        by (unfold append_text; by case_match)
    end.
    simpl. split_and!; try done.
Qed.

Lemma map_reader_ser_alter (b : bool) (t : nat) (l : list SerialReader) :
  map reader_ser (alter (set_is_alive b) t l) = map reader_ser l.
Proof.
  revert t. induction l as [|th l IH]; intros [|t]; simpl; [done..|].
  f_equal. apply IH.
Qed.

(** What an event does to the two stores and to the references into them:
    a successful connect adds one handle and one reader on it and
    references both; every other event keeps the number of handles and the
    handle of every reader, and keeps or drops both references. *)
Lemma step_stores (ev : event) (st : Monitor) :
  let st' := step st ev in
  (ser st' = Some (length (ports st))
   ∧ reader st' = Some (length (threads st))
   ∧ (∃ p, ports st' = ports st ++ [p])
   ∧ threads st'
     = threads st ++ [{| reader_ser := length (ports st); is_alive := true |}])
  ∨ (map reader_ser (threads st') = map reader_ser (threads st)
     ∧ length (ports st') = length (ports st)
     ∧ ((ser st' = ser st ∧ reader st' = reader st)
        ∨ (ser st' = None ∧ reader st' = None))).
Proof.
  cbn zeta.
  destruct ev as [o j c|w| |found|text|i|i|i|b|b|b|t r now|]; simpl;
    try (right; by auto).
  - unfold toggle_connection. destruct (connected st).
    + right. unfold disconnect_serial, except_pass, stop_and_join, close_port.
      simpl. repeat case_match; simpl;
        rewrite ?map_reader_ser_alter, ?length_alter; auto.
    + destruct (connect_serial_cases o st)
        as [(Hs & Hr & Hp & Ht & _)|(_ & Hs & Hr & (p & Hp & _) & Ht & _)].
      * right. rewrite Hs, Hr, Hp, Ht. auto.
      * left. split_and!; eauto.
  - right. unfold send_text. destruct (connected st); cbn [negb state_of].
    2:{ auto. }
    destruct w as [|e].
    + destruct (ser st) eqn:Hser; repeat case_match; simpl;
        rewrite ?length_alter; auto.
    + match goal with |- context [append_text ?x st] =>
        destruct (append_text_frame x st) as (Hs & Hr & _ & _ & Hp & Ht & _)
      end.
      cbn [state_of]. rewrite Hs, Hr, Hp, Ht. auto.
  - right. by case_match; auto.
  - right. unfold run_iter. repeat case_match; simpl;
      rewrite ?map_reader_ser_alter; auto.
  - right. rewrite flush_queue_spec. cbn zeta. case_match; simpl; auto.
Qed.

Lemma init_paired (found : list (list Z * list Z)) : paired (init found).
Proof. split_and!; [done| |done]. by intros t th. Qed.

Lemma step_paired (st : Monitor) (ev : event) :
  paired st → paired (step st ev).
Proof.
  intros (Hlen & Hser & Href).
  destruct (step_stores ev st)
    as [(Hs & Hr & (p & Hp) & Ht)|(Hmap & Hl & Hrefs)]; cbn zeta in *.
  - split_and!.
    + rewrite Hp, Ht, !length_app. simpl. lia.
    + intros t th. rewrite Ht, lookup_snoc_cases.
      case_decide; [|by apply Hser]. intros [= <-]. simpl. lia.
    + rewrite Hs, Hr. by rewrite Hlen.
  - split_and!.
    + rewrite Hl, <- Hlen.
      by rewrite <- (length_map reader_ser), Hmap, length_map.
    + intros t th Hth.
      assert (map reader_ser (threads (step st ev)) !! t
              = Some (reader_ser th)) as Hm
        by (by rewrite list_lookup_fmap, Hth).
      rewrite Hmap, list_lookup_fmap in Hm.
      destruct (threads st !! t) as [th0|] eqn:Hth0; [|done].
      simpl in Hm. injection Hm as <-. by apply Hser.
    + destruct Hrefs as [[-> ->]|[-> ->]]; done.
Qed.

(** X1.  Readers and handles are created in pairs and never moved: in every
    reachable state there are as many readers as handles, reader [t] reads
    from handle [t], the controller's two references point at the same
    index, and so no two readers ever read from the same handle. *)
Theorem one_reader_per_handle (found : list (list Z * list Z))
  (evs : list event) :
  let st := run_events evs (init found) in
  paired st
  ∧ (∀ t1 t2 th1 th2,
       threads st !! t1 = Some th1 → threads st !! t2 = Some th2 →
       reader_ser th1 = reader_ser th2 → t1 = t2)
  ∧ (∀ t th, threads st !! t = Some th →
       is_Some (ports st !! reader_ser th)).
Proof.
  cbn zeta.
  assert (paired (run_events evs (init found))) as Hp.
  { apply run_events_keeps; [intros; by apply step_paired|apply init_paired]. }
  split; [done|]. destruct Hp as (Hlen & Hser & _). split.
  - intros t1 t2 th1 th2 H1 H2 Heq.
    apply Hser in H1, H2. congruence.
  - intros t th Hth. rewrite (Hser t th Hth).
    apply lookup_lt_is_Some. rewrite <- Hlen. by eapply lookup_lt_Some.
Qed.

(** Only a click on the connect button changes what the controller holds,
    what the button and the port selector show, the stop flag, or which
    handles are open. *)
Lemma step_controls (ev : event) (st : Monitor) :
  (∀ o j c, ev ≠ Click_connect o j c) →
  let st' := step st ev in
  ser st' = ser st ∧ connect_btn st' = connect_btn st
  ∧ port_box_enabled st' = port_box_enabled st
  ∧ stop_event st' = stop_event st
  ∧ (∀ h, port_is_open h st' = port_is_open h st).
Proof.
  intros Hev. cbn zeta.
  destruct ev as [o j c|w| |found|text|i|i|i|b|b|b|t r now|]; simpl;
    try (by split_and!).
  - by destruct (Hev o j c).
  - destruct (send_text_link w st) as (Hs & _ & Ho & _).
    split_and!; try done; unfold send_text;
      destruct (connected st); cbn [negb state_of]; try done;
      destruct w; cbn [state_of];
      try (match goal with |- context [append_text ?x st] =>
             by destruct (append_text_frame x st) as (?&?&?&?&?&?&?&?&_)
           end);
      destruct (ser st); by repeat case_match.
  - by case_match.
  - destruct (run_iter_link t r now st) as (Hs & _ & Ho & _).
    split_and!; try done; unfold run_iter; by repeat case_match.
  - destruct (flush_queue_link st) as (Hs & _ & Ho & _).
    split_and!; try done; rewrite flush_queue_spec; cbn zeta; by case_match.
Qed.

Lemma init_widgets_agree (found : list (list Z * list Z)) :
  widgets_agree (init found).
Proof. split_and!; try done; by intros [h Hh]. Qed.

Lemma step_widgets_agree (st : Monitor) (ev : event) :
  widgets_agree st → widgets_agree (step st ev).
Proof.
  intros (Hc & Hb & He & Hf).
  assert ((∃ o j c, ev = Click_connect o j c)
          ∨ (∀ o j c, ev ≠ Click_connect o j c))
    as [(o & j & c & ->)|Hev] by (destruct ev; eauto).
  2:{ destruct (step_controls ev st Hev) as (Hs & Hb' & He' & Hf' & Ho).
      cbn zeta in *. unfold widgets_agree, connected.
      rewrite Hs, Hb', He', Hf'. split_and!; try done.
      rewrite <- Hc. unfold connected. destruct (ser st); [apply Ho|done]. }
  simpl. unfold toggle_connection. destruct (connected st) eqn:Hconn.
  - destruct (disconnect_serial_spec j c st)
      as (_ & _ & _ & _ & _ & _ & _ & Hs & _).
    cbn zeta in Hs. unfold widgets_agree, connected. rewrite Hs.
    split_and!; try done; by intros [h Hh].
  - assert (ser st = None) as Hnone.
    { symmetry in Hc. apply bool_decide_eq_false in Hc.
      destruct (ser st); [|done]. destruct Hc. by eexists. }
    destruct (connect_serial_cases o st)
      as [(Hs & _ & Hp & _ & Hf' & Hb' & He' & _)
         |(_ & Hs & _ & (p & Hp & Hopen & _) & _ & Hf' & Hb' & He' & _)];
      cbn zeta in *; unfold widgets_agree, connected, port_is_open;
      rewrite Hs, Hp, Hb', He', Hf'.
    + rewrite Hnone. rewrite Hnone in Hb, He.
      split_and!; try done; by intros [h Hh].
    + rewrite list_lookup_middle by done. rewrite Hopen.
      rewrite bool_decide_eq_true_2 by (by eexists). done.
Qed.

(** X2.  The window never misreports the connection.  In every reachable
    state the controller holds a handle exactly when that handle is open;
    the button reads "Disconnect" and the port selector is disabled exactly
    then, and reads "Connect" with the selector enabled otherwise; and the
    stop flag is clear for as long as a handle is held. *)
Theorem window_tracks_connection (found : list (list Z * list Z))
  (evs : list event) :
  let st := run_events evs (init found) in
  connected st = bool_decide (is_Some (ser st))
  ∧ connect_btn st = button_label (connected st)
  ∧ port_box_enabled st = negb (connected st)
  ∧ stop_event st && connected st = false.
Proof.
  cbn zeta.
  assert (widgets_agree (run_events evs (init found)))
    as (Hc & Hb & He & Hf).
  { apply run_events_keeps;
      [intros; by apply step_widgets_agree|apply init_widgets_agree]. }
  rewrite Hc. split_and!; try done.
  case_bool_decide as Hs; [|by rewrite andb_false_r].
  by rewrite (Hf Hs).
Qed.

Lemma found_items_length (found : list (list Z * list Z)) :
  length (found_items found) = length found `max` 1.
Proof. destruct found; simpl; [done|]. rewrite length_map. lia. Qed.

(** The list of the port selector changes on Refresh only. *)
Lemma step_port_box (ev : event) (st : Monitor) :
  port_box (step st ev)
  = match ev with
    | Click_refresh found => found_items found
    | _ => port_box st
    end.
Proof.
  destruct ev as [o j c|w| |found|text|i|i|i|b|b|b|t r now|]; simpl;
    try done.
  - unfold toggle_connection. destruct (connected st).
    + unfold disconnect_serial, except_pass, stop_and_join, close_port.
      simpl. by repeat case_match.
    + by destruct (connect_serial_cases o st)
        as [(_&_&_&_&_&_&_&_&H&_)|(_&_&_&_&_&_&_&_&_&H)].
  - unfold send_text. destruct (connected st); cbn [negb state_of]; [|done].
    destruct w; cbn [state_of].
    + destruct (ser st); by repeat case_match.
    + unfold append_text. by case_match.
  - by case_match.
  - unfold run_iter. by repeat case_match.
  - rewrite flush_queue_spec. cbn zeta. by case_match.
Qed.

Lemma port_box_nonempty (found : list (list Z * list Z))
  (evs : list event) :
  1 ≤ length (port_box (run_events evs (init found))).
Proof.
  apply (run_events_keeps (λ st, 1 ≤ length (port_box st))).
  - intros st ev Hst. rewrite step_port_box.
    destruct ev; try done. rewrite found_items_length. lia.
  - simpl. rewrite found_items_length. lia.
Qed.

(** X3.  The port selector is never empty: a refresh that finds no port
    leaves the one placeholder item, otherwise one item per port.  So the
    test [port_box.count() == 0] of [connect_serial] fails in every
    reachable state, and a click on Connect never reports
    "[INFO] No ports to open.": whatever the outcome of the open, the
    console gains no line or one line starting with "[ERROR] ". *)
Theorem port_box_never_empty (found : list (list Z * list Z))
  (evs : list event) :
  let st := run_events evs (init found) in
  1 ≤ length (port_box st)
  ∧ (length (port_box st) =? 0) = false
  ∧ (∀ found', length (port_box (refresh_ports found' st))
               = length found' `max` 1)
  ∧ (∀ o, console (state_of (connect_serial o st)) = console st
          ∨ ∃ msg, console (state_of (connect_serial o st))
                   = console st
                     ++ [Py.rstrip (Py.lit "[ERROR] Could not open " ++ msg)]).
Proof.
  cbn zeta. pose proof (port_box_nonempty found evs) as Hlen.
  assert ((length (port_box (run_events evs (init found))) =? 0) = false)
    as Hguard by (apply Nat.eqb_neq; lia).
  split; [done|]. split; [done|]. split.
  - intros found'. simpl. apply found_items_length.
  - intros o. unfold connect_serial. rewrite Hguard.
    destruct (Py.int_of_str _); [|by left].
    destruct o; cbn zeta; cbn [state_of]; [by left|right].
    simpl. rewrite append_text_console. by eexists.
Qed.

(** X4.  The connect button is a toggle.  In any reachable state with a
    baud rate selected, a click on it while connected always ends
    disconnected, whatever the join and the close did; a click while
    disconnected ends connected exactly when the open succeeded. *)
Theorem connect_button_toggles (found : list (list Z * list Z))
  (evs : list event) (o : open_outcome) (j : join_outcome)
  (c : close_outcome) :
  baud_box_index (run_events evs (init found)) < length baud_items →
  let st := run_events evs (init found) in
  connected (step st (Click_connect o j c))
  = if connected st then false else open_ok o.
Proof.
  intros Hbaud. cbn zeta.
  pose proof (port_box_nonempty found evs) as Hlen.
  set (st := run_events evs (init found)) in *.
  simpl. unfold toggle_connection. destruct (connected st) eqn:Hconn.
  - destruct (disconnect_serial_spec j c st)
      as (_ & _ & _ & _ & _ & _ & _ & Hs & _).
    cbn zeta in Hs. unfold connected. by rewrite Hs.
  - destruct (connect_serial_cases o st)
      as [(Hs & _ & Hp & _ & _ & _ & _ & _ & _ & Hok)
         |(-> & Hs & _ & (p & Hp & Hopen & _) & _)]; cbn zeta in *.
    + assert (connected (state_of (connect_serial o st)) = connected st)
        as -> by (unfold connected, port_is_open; by rewrite Hs, Hp).
      rewrite Hconn. destruct o as [|e]; [|done].
      destruct (Hok eq_refl) as [Hnil|Hnone].
      * rewrite Hnil in Hlen. simpl in Hlen. lia.
      * destruct (baud_item_int _ Hbaud) as (b & Hb & _). congruence.
    + unfold connected, port_is_open. rewrite Hs, Hp.
      by rewrite list_lookup_middle, Hopen.
Qed.

(** Three clicks from the fresh window: connected, disconnected although
    the join timed out and the close raised, not connected when the open
    fails. *)
Lemma connect_button_toggles_fresh :
  connected (step (run_events [] (init Scenario.found))
               (Click_connect OpenOk JoinExited CloseOk)) = true
  ∧ connected (step (run_events [Click_connect OpenOk JoinExited CloseOk]
                       (init Scenario.found))
                 (Click_connect OpenOk JoinTimedOut
                    (CloseFails Scenario.io_error))) = false
  ∧ connected (step (run_events [] (init Scenario.found))
                 (Click_connect (OpenFails Scenario.io_error)
                    JoinExited CloseOk)) = false.
Proof.
  assert (∀ evs,
    evs = [] ∨ evs = [Click_connect OpenOk JoinExited CloseOk] →
    baud_box_index (run_events evs (init Scenario.found))
    < length baud_items) as H
    by (intros evs [-> | ->]; vm_compute; lia).
  split; [|split].
  - etrans; [apply connect_button_toggles, H; by left|].
    vm_compute. reflexivity.
  - etrans; [apply connect_button_toggles, H; by right|].
    vm_compute. reflexivity.
  - etrans; [apply connect_button_toggles, H; by left|].
    vm_compute. reflexivity.
Defined.

End RunInvariants.

(** ** The reader and the poll loop together *)

Section ReaderAndPoll.

(** A pass that finds the stop flag set ends the thread if it is alive and
    does nothing else. *)
Lemma run_iter_stopped (t : nat) (r : read_outcome) (now : Clock.datetime)
  (st : Monitor) :
  stop_event st = true →
  run_iter t r now st
  = if thread_is_alive t st then alter_thread (set_is_alive false) t st
    else st.
Proof.
  intros Hstop. destruct (thread_is_alive t st) eqn:Ht.
  - by apply join_exit_is_a_pass.
  - by apply run_iter_dead.
Qed.

(** X5.  The stop flag is honoured without reading.  From a state whose
    stop flag is set, the passes of a reader never call [readline]: whatever
    the port would have answered, nothing is put on the queue, nothing
    reaches the console, the handles are untouched, the reader is not alive
    after its first pass and no other thread is affected. *)
Theorem stop_flag_ends_reader (t : nat)
  (answers : list (read_outcome * Clock.datetime)) (st : Monitor) :
  stop_event st = true →
  let st' := run t answers st in
  queue st' = queue st ∧ console st' = console st ∧ ports st' = ports st
  ∧ stop_event st' = true
  ∧ thread_is_alive t st'
    = thread_is_alive t st && bool_decide (answers = [])
  ∧ (∀ t', t' ≠ t → thread_is_alive t' st' = thread_is_alive t' st).
Proof.
  cbn zeta. revert st.
  induction answers as [|[r now] rest IH]; intros st Hstop.
  - simpl. split_and!; try done. by rewrite andb_true_r.
  - cbn [run]. rewrite run_iter_stopped by done.
    destruct (thread_is_alive t st) eqn:Ht.
    + destruct (IH (alter_thread (set_is_alive false) t st) Hstop)
        as (Hq & Hc & Hp & Hs & Ha & Ho).
      rewrite Hq, Hc, Hp, Hs, Ha, thread_is_alive_exit.
      split_and!; try done. intros t' Hne.
      rewrite Ho, thread_is_alive_alter by done. by rewrite decide_False.
    + destruct (IH st Hstop) as (Hq & Hc & Hp & Hs & Ha & Ho).
      rewrite Hq, Hc, Hp, Hs, Ha, Ht. by split_and!.
Qed.

(** After a disconnect whose join timed out, the reader left behind takes
    one pass, offered a line, and exits without queuing it. *)
Lemma stop_flag_ends_reader_stopping :
  let st' := run 0 [(ReadLine (Py.lit "late" ++ [Py.LF]), Scenario.noon)]
               Scenario.stopping in
  queue st' = queue Scenario.stopping
  ∧ console st' = console Scenario.stopping
  ∧ ports st' = ports Scenario.stopping
  ∧ stop_event st' = true
  ∧ thread_is_alive 0 st' = false
  ∧ (∀ t', t' ≠ 0 →
       thread_is_alive t' st' = thread_is_alive t' Scenario.stopping).
Proof.
  exact (stop_flag_ends_reader 0
           [(ReadLine (Py.lit "late" ++ [Py.LF]), Scenario.noon)]
           Scenario.stopping eq_refl).
Defined.

(** Stripping ignores white space appended at the end. *)
Lemma rstrip_app_space (s w : list Z) :
  forallb Py.isspace w = true → Py.rstrip (s ++ w) = Py.rstrip s.
Proof.
  intros Hw. induction s as [|c s IH]; simpl.
  - by apply rstrip_nil.
  - by rewrite IH.
Qed.

(** X6.  What the user sees for what the reader gets.  On a live reader
    with the flag clear and its port open, a pass followed by a tick of the
    timer shows, after the lines of the entries already queued: for a
    non-empty read, the decoded text without its trailing white space,
    behind ["[HH:MM:SS.mmm] "] when Timestamps is checked; for a read that
    raises, the line ["[ERROR] <e>"], never with a time stamp.  Either way
    the queue is empty afterwards. *)
Theorem received_line_shown (t : nat) (th : SerialReader) (p : Serial)
  (now : Clock.datetime) (st : Monitor) :
  threads st !! t = Some th → is_alive th = true → stop_event st = false →
  ports st !! reader_ser th = Some p → is_open p = true →
  let shown := console st
               ++ map (format_entry (timestamps_chk st)) (queue st) in
  (∀ line, Py.truthy line = true →
     console (flush_queue (run_iter t (ReadLine line) now st))
     = shown
       ++ [(if timestamps_chk st
            then Py.lit "[" ++ Clock.timestamp now ++ Py.lit "] " else [])
           ++ Py.rstrip (decode_line line)])
  ∧ (∀ e,
       console (flush_queue (run_iter t (ReadFails e) now st))
       = shown ++ [Py.rstrip (Py.lit "[ERROR] " ++ str_of_exn e)])
  ∧ (∀ r, queue (flush_queue (run_iter t r now st)) = []).
Proof.
  intros Hth Halive Hstop Hp Hopen shown.
  assert (∀ r, run_iter t r now st =
    match r with
    | ReadLine line =>
        if Py.truthy line
        then put (Some (Clock.timestamp now), decode_line line) st else st
    | ReadFails e =>
        alter_thread (set_is_alive false) t
          (put (None, Py.lit "[ERROR] " ++ str_of_exn e ++ [Py.LF]) st)
    end) as Hiter.
  { intros r. unfold run_iter, readline.
    by rewrite Hth, Halive, Hstop, Hp, Hopen. }
  split_and!.
  - intros line Hline. rewrite flush_queue_console, Hiter, Hline.
    change (queue (put ?e st)) with (queue st ++ [e]).
    change (console (put ?e st)) with (console st).
    change (timestamps_chk (put ?e st)) with (timestamps_chk st).
    rewrite map_app, app_assoc. fold shown. f_equal. cbn [map].
    rewrite format_entry_prefix. cbn [Py.truthy_opt default].
    by rewrite timestamp_truthy, andb_true_r.
  - intros e. rewrite flush_queue_console, Hiter.
    change (queue (alter_thread ?f t (put ?e st))) with (queue st ++ [e]).
    change (console (alter_thread ?f t (put ?e st))) with (console st).
    change (timestamps_chk (alter_thread ?f t (put ?e st)))
      with (timestamps_chk st).
    rewrite map_app, app_assoc. fold shown. f_equal. cbn [map].
    rewrite format_entry_prefix. cbn [Py.truthy_opt].
    rewrite andb_false_r. cbn [app].
    by rewrite app_assoc, rstrip_app_space.
  - intros r. rewrite flush_queue_spec. cbn zeta. by case_match.
Qed.

(** The line ["hi\n"] read at noon on the port of the example session. *)
Lemma received_line_shown_hi :
  console (flush_queue
             (run_iter 0 (ReadLine (Py.lit "hi" ++ [Py.LF])) Scenario.noon
                Scenario.online))
  = [Py.lit "[12:00:00.000] hi"]
  ∧ console (flush_queue
               (run_iter 0 (ReadFails Scenario.io_error) Scenario.noon
                  Scenario.online))
    = [Py.lit "[ERROR] [Errno 5] Input/output error"].
Proof.
  destruct (received_line_shown 0 {| reader_ser := 0; is_alive := true |}
              Scenario.com3 Scenario.noon Scenario.online
              eq_refl eq_refl eq_refl eq_refl eq_refl) as (Hline & Herr & _).
  split.
  - etrans; [apply Hline; reflexivity|]. vm_compute. reflexivity.
  - etrans; [apply Herr|]. vm_compute. reflexivity.
Defined.

End ReaderAndPoll.

(** ** The console, the cursor and the queue *)

Section ConsoleAndQueue.

(** X7.  A tick of the timer on an empty queue changes nothing at all, not
    even the cursor when Autoscroll is checked, so the view of a user who
    has scrolled up is left alone while nothing arrives.  On a non-empty
    queue the cursor goes to the end of the console exactly when Autoscroll
    is checked, and stays where it was otherwise. *)
Theorem idle_tick_changes_nothing (st : Monitor) :
  queue st = [] →
  flush_queue st = st
  ∧ (∀ e, console_cursor (flush_queue (put e st))
          = if autoscroll_chk st then S (length (console st))
            else console_cursor st)
  ∧ (∀ e, length (console (flush_queue (put e st)))
          = S (length (console st))).
Proof.
  intros Hq. split_and!.
  - rewrite flush_queue_spec, Hq. cbn zeta. rewrite app_nil_r. simpl.
    destruct st. simpl in *. by subst.
  - intros e. rewrite flush_queue_spec. cbn zeta.
    change (queue (put e st)) with (queue st ++ [e]). rewrite Hq. simpl.
    destruct (autoscroll_chk st); simpl; [|done].
    rewrite length_app. simpl. lia.
  - intros e. rewrite flush_queue_console, length_app, length_map.
    change (queue (put e st)) with (queue st ++ [e]). rewrite Hq. simpl. lia.
Qed.

(** The timer firing on the fresh window. *)
Lemma idle_tick_changes_nothing_fresh :
  flush_queue (init Scenario.found) = init Scenario.found
  ∧ (∀ e, console_cursor (flush_queue (put e (init Scenario.found))) = 1)
  ∧ (∀ e, length (console (flush_queue (put e (init Scenario.found)))) = 1).
Proof.
  exact (idle_tick_changes_nothing (init Scenario.found) eq_refl).
Defined.

(** The queue changes by a pass, which adds entries of the reader's two
    kinds, and by a tick, which empties it. *)
Lemma step_queue (ev : event) (st : Monitor) :
  Forall reader_entry (queue st) → Forall reader_entry (queue (step st ev)).
Proof.
  intros Hq.
  destruct ev as [o j c|w| |found|text|i|i|i|b|b|b|t r now|]; simpl;
    try done.
  - unfold toggle_connection. destruct (connected st).
    + by destruct (disconnect_serial_spec j c st) as (_&_&_&_&_&_&_&_&_&_);
        unfold disconnect_serial, except_pass, stop_and_join, close_port;
        simpl; repeat case_match.
    + by destruct (connect_serial_cases o st)
        as [(_&_&_&_&_&_&_&->&_)|(_&_&_&_&_&_&_&_&->&_)].
  - unfold send_text. destruct (connected st); cbn [negb state_of]; [|done].
    destruct w; cbn [state_of].
    + destruct (ser st); by repeat case_match.
    + match goal with |- context [append_text ?x st] =>
        by destruct (append_text_frame x st) as (_&_&->&_)
      end.
  - by case_match.
  - unfold run_iter, readline. repeat case_match; simpl; try done;
      apply Forall_app; (split; [done|]); apply Forall_singleton; simpl;
      eauto.
  - rewrite flush_queue_spec. cbn zeta. by case_match.
Qed.

(** X8.  The queue only ever holds what the reader makes.  In every
    reachable state each queued entry is either a received line, a
    non-empty read decoded and stamped with the time of some instant, or an
    error entry without time stamp whose text is ["[ERROR] <e>\n"]; so an
    entry without time stamp is always an error report. *)
Theorem queue_holds_reader_entries (found : list (list Z * list Z))
  (evs : list event) :
  Forall reader_entry (queue (run_events evs (init found))).
Proof.
  apply (run_events_keeps (λ st, Forall reader_entry (queue st))).
  - intros st ev. apply step_queue.
  - constructor.
Qed.

End ConsoleAndQueue.

(** ** Handles, devices and the exit path *)

Section HandlesAndExit.

Lemma close_port_closed_handle (c : close_outcome) (st : Monitor) (h : nat)
  (p : Serial) :
  ports st !! h = Some p → is_open p = false →
  ports (state_of (close_port c st)) !! h = Some p.
Proof.
  intros Hp Hclosed. unfold close_port.
  destruct (ser st) as [h0|]; [|done].
  destruct (port_is_open h0 st) eqn:Hh0; [|done].
  destruct c; cbn [state_of]; [|done]. simpl.
  rewrite list_lookup_alter_ne; [done|]. intros ->.
  unfold port_is_open in Hh0. rewrite Hp in Hh0. congruence.
Qed.

(** An event leaves a closed handle as it is. *)
Lemma step_closed_handle (ev : event) (st : Monitor) (h : nat) (p : Serial) :
  ports st !! h = Some p → is_open p = false →
  ports (step st ev) !! h = Some p.
Proof.
  intros Hp Hclosed.
  assert (port_is_open h st = false) as Hh
    by (unfold port_is_open; by rewrite Hp).
  destruct ev as [o j c|w| |found|text|i|i|i|b|b|b|t r now|]; simpl;
    try done.
  - unfold toggle_connection. destruct (connected st).
    + destruct (disconnect_serial_spec j c st)
        as (_ & _ & Hports & _ & Hports' & _).
      cbn zeta in *. rewrite Hports'.
      apply close_port_closed_handle; [|done]. by rewrite Hports.
    + destruct (connect_serial_cases o st)
        as [(_ & _ & -> & _)|(_ & _ & _ & (p' & -> & _) & _)]; [done|].
      rewrite lookup_app_l; [done|]. by eapply lookup_lt_Some.
  - unfold send_text, connected.
    destruct (ser st) as [h0|] eqn:Hser; [|done].
    destruct (port_is_open h0 st) eqn:Hh0; cbn [negb state_of]; [|done].
    destruct w; cbn [state_of].
    + assert (h0 ≠ h) by (intros ->; congruence).
      case_match; simpl; by rewrite list_lookup_alter_ne.
    + match goal with |- context [append_text ?x st] =>
        by destruct (append_text_frame x st) as (_&_&_&_&->&_)
      end.
  - by case_match.
  - unfold run_iter. by repeat case_match.
  - rewrite flush_queue_spec. cbn zeta. by case_match.
Qed.

(** X9.  A closed handle is finished: from any state and along any run,
    a handle that is closed is never opened again and never written to;
    its record, bytes written included, stays as it is. *)
Theorem closed_handle_is_final (evs : list event) (st : Monitor) (h : nat)
  (p : Serial) :
  ports st !! h = Some p → is_open p = false →
  ports (run_events evs st) !! h = Some p
  ∧ port_is_open h (run_events evs st) = false.
Proof.
  intros Hp Hclosed.
  assert (ports (run_events evs st) !! h = Some p) as Hrun.
  { apply (run_events_keeps (λ s, ports s !! h = Some p)); [|done].
    intros s ev Hs. by apply step_closed_handle. }
  split; [done|]. unfold port_is_open. by rewrite Hrun.
Qed.

(** The first handle of the example session, closed by a disconnect, is
    untouched by a reconnect and a send. *)
Lemma closed_handle_is_final_com3 :
  ports (run_events Scenario.reconnect_and_send Scenario.offline) !! 0
  = Some (set_is_open false Scenario.com3)
  ∧ port_is_open 0 (run_events Scenario.reconnect_and_send Scenario.offline)
    = false.
Proof.
  exact (closed_handle_is_final Scenario.reconnect_and_send Scenario.offline
           0 (set_is_open false Scenario.com3) eq_refl eq_refl).
Defined.

(** The characters before the first space of [dev ++ " " ++ rest] are [dev]
    when [dev] has no space. *)
Lemma split_space_head_app (dev rest : list Z) :
  32%Z ∉ dev → Py.split_space_head (dev ++ 32%Z :: rest) = dev.
Proof.
  induction dev as [|c dev IH]; simpl; [done|].
  intros [Hc Hd]%not_elem_of_cons.
  destruct (Z.eqb_spec c 32); [congruence|]. by rewrite IH.
Qed.

(** X10.  Connect opens the selected port.  When the selector shows the
    ports found and item [i] is selected, the device name handed to
    [serial.Serial] is the device of the [i]-th port, provided that name
    has no space, or is non-empty and does not start with "(" (a name that
    is empty or starts with "(" is read back from the item's label, up to
    its first space). *)
Theorem connect_opens_selected_device (found : list (list Z * list Z))
  (i : nat) (dev desc : list Z) (st : Monitor) :
  port_box st = found_items found → port_box_index st = i →
  found !! i = Some (dev, desc) →
  32%Z ∉ dev ∨ (Py.truthy dev = true ∧ Py.startswith_paren dev = false) →
  chosen_device st = dev
  ∧ port_box_currentText st = dev ++ [32; 0x2014; 32]%Z ++ desc
  ∧ port_box_currentData st = Some dev.
Proof.
  intros Hbox Hidx Hi Hdev.
  assert (port_box st !! port_box_index st = Some (port_item (dev, desc)))
    as Hitem.
  { rewrite Hbox, Hidx. destruct found as [|x found]; [done|].
    unfold found_items. by rewrite list_lookup_fmap, Hi. }
  assert (port_box_currentText st = dev ++ [32; 0x2014; 32]%Z ++ desc)
    as Htext.
  { unfold port_box_currentText, currentText.
    by rewrite list_lookup_fmap, Hitem. }
  assert (port_box_currentData st = Some dev) as Hdata.
  { unfold port_box_currentData. by rewrite Hitem. }
  split; [|done]. unfold chosen_device. rewrite Hdata, Htext.
  destruct (negb (Py.truthy dev) || Py.startswith_paren dev) eqn:Hcond;
    [|done].
  destruct Hdev as [Hsp|[Ht Hs]].
  - by apply split_space_head_app.
  - by rewrite Ht, Hs in Hcond.
Qed.

(** The one port of the example session. *)
Lemma connect_opens_selected_device_COM3 :
  chosen_device (init Scenario.found) = Py.lit "COM3"
  ∧ port_box_currentText (init Scenario.found)
    = Py.lit "COM3" ++ [32; 0x2014; 32]%Z ++ Py.lit "USB Serial Device"
  ∧ port_box_currentData (init Scenario.found) = Some (Py.lit "COM3").
Proof.
  apply (connect_opens_selected_device Scenario.found 0 (Py.lit "COM3")
           (Py.lit "USB Serial Device") (init Scenario.found)
           eq_refl eq_refl eq_refl).
  right. split; reflexivity.
Defined.

(** X11.  With no port found, Connect does not refuse: the selector holds
    the placeholder "(No ports found)", which carries no device, and
    [connect_serial] falls back on the first word of that label, so it
    tries to open a device named "(No" and, when that fails, reports
    "[ERROR] Could not open (No @ <baud>: <e>". *)
Theorem connect_without_ports (st : Monitor) (baud : Z) (e : exn) :
  port_box st = found_items [] → port_box_index st = 0 →
  Py.int_of_str (currentText baud_items (baud_box_index st)) = Some baud →
  chosen_device st = Py.lit "(No"
  ∧ (∃ p, ports (state_of (connect_serial OpenOk st)) = ports st ++ [p]
          ∧ device p = Py.lit "(No" ∧ baudrate p = baud)
  ∧ console (state_of (connect_serial (OpenFails e) st))
    = console st
      ++ [Py.rstrip (Py.lit "[ERROR] Could not open (No @ "
                     ++ Py.str_of_int baud ++ Py.lit ": " ++ str_of_exn e)].
Proof.
  intros Hbox Hidx Hint.
  assert (chosen_device st = Py.lit "(No") as Hdev.
  { unfold chosen_device, port_box_currentData, port_box_currentText.
    by rewrite Hbox, Hidx. }
  split; [done|]. unfold connect_serial. rewrite Hbox, Hint, Hdev.
  cbn [found_items length Nat.eqb]. cbn zeta. cbn [state_of]. split.
  - eexists. simpl. by split_and!.
  - change (console (showMessage ?m ?t ?s)) with (console s).
    rewrite append_text_console. f_equal. f_equal.
    rewrite !app_assoc. rewrite rstrip_app_space by done.
    by rewrite <- !app_assoc.
Qed.

(** The fresh window when no port is plugged in. *)
Lemma connect_without_ports_fresh :
  chosen_device (init []) = Py.lit "(No"
  ∧ (∃ p, ports (state_of (connect_serial OpenOk (init [])))
          = ports (init []) ++ [p]
          ∧ device p = Py.lit "(No" ∧ baudrate p = 115200%Z)
  ∧ console (state_of (connect_serial (OpenFails Scenario.io_error) (init [])))
    = console (init [])
      ++ [Py.rstrip (Py.lit "[ERROR] Could not open (No @ "
                     ++ Py.str_of_int 115200 ++ Py.lit ": "
                     ++ str_of_exn Scenario.io_error)].
Proof.
  exact (connect_without_ports (init []) 115200 Scenario.io_error
           eq_refl eq_refl eq_refl).
Defined.

(** X12.  The exit path releases the port.  [main] returns the exit code
    of the event loop, and when the window closes the controller is
    disconnected whatever state the run left it in; if every close of the
    run and the one on exit went through, no handle is left open. *)
Theorem main_releases_port (found : list (list Z * list Z))
  (evs : list event) (j : join_outcome) (ret : Z) :
  closes_ok evs = true →
  let r := main found evs j CloseOk ret in
  r.1 = ret ∧ connected r.2 = false ∧ ser r.2 = None ∧ reader r.2 = None
  ∧ open_count r.2 = 0
  ∧ (∀ h, port_is_open h r.2 = false).
Proof.
  intros Hc. cbn zeta. unfold main. cbn [fst snd].
  destruct (init_inv found) as (Hwf0 & _ & Hp0).
  destruct (run_events_inv evs (init found) Hwf0) as (Hwf & _ & Hp).
  specialize (Hp Hp0 Hc).
  set (st := run_events evs (init found)) in *.
  assert (∀ s, refs_wf s → only_handle_open s → connected s = false →
            connected s = false ∧ ser s = None ∧ reader s = None
            ∧ open_count s = 0 ∧ (∀ h, port_is_open h s = false)) as Hfin.
  { intros s Hw Ho Hn. destruct (not_connected_no_refs s Hw Hn) as [Hs Hr].
    split_and!; try done; [by apply open_count_zero|].
    intros h. destruct (port_is_open h s) eqn:Hh; [|done].
    apply Ho in Hh. congruence. }
  split; [done|]. destruct (connected st) eqn:Hconn.
  - destruct (disconnect_serial_inv j CloseOk st) as (Hwf' & _ & Hp').
    cbn zeta in *. apply Hfin; [done|by apply Hp'|].
    destruct (disconnect_serial_spec j CloseOk st)
      as (_ & _ & _ & _ & _ & _ & _ & Hs & _).
    cbn zeta in Hs. unfold connected. by rewrite Hs.
  - by apply Hfin.
Qed.

(** Closing the window at the end of the example session. *)
Lemma main_releases_port_session :
  let r := main Scenario.found Scenario.session JoinExited CloseOk 0 in
  r.1 = 0%Z ∧ connected r.2 = false ∧ ser r.2 = None ∧ reader r.2 = None
  ∧ open_count r.2 = 0
  ∧ (∀ h, port_is_open h r.2 = false).
Proof.
  exact (main_releases_port Scenario.found Scenario.session JoinExited 0
           eq_refl).
Defined.

End HandlesAndExit.

(** ** The text on the screen *)

Section TextOnScreen.
Import Utf8.

Lemma scalar_intro (c : Z) :
  (0 ≤ c ≤ 0x10FFFF)%Z → (c < 0xD800 ∨ 0xDFFF < c)%Z → scalar c.
Proof.
  intros Hr Hc. split; [done|]. unfold is_surrogate.
  apply andb_false_iff. destruct Hc; [left|right]; by apply Z.leb_gt.
Qed.

(** Whatever the decoder returns for octets is well-formed text: scalar
    values only, U+FFFD included. *)
Lemma decode_scalar (m : errors) (bs text : list Z) :
  Forall octet bs → decode m bs = Some text → Forall scalar text.
Proof.
  remember (length bs) as n eqn:Hn.
  revert bs text Hn. induction (lt_wf n) as [n _ IH]. intros bs text -> Hbs.
  assert (∀ r t : list Z, (length r < length bs)%nat → Forall octet r →
            decode m r = Some t → Forall scalar t)
    as Hrec by (intros r t Hr; by eapply IH).
  clear IH.
  assert (∀ (o : option (list Z)) t,
            (∀ t', o = Some t' → Forall scalar t') →
            on_error m o = Some t → Forall scalar t) as Herr.
  { intros o t Ho. destruct m; [done|]. destruct o as [t'|]; [|done].
    intros [= <-]. constructor; [|by apply Ho].
    apply scalar_intro; unfold REPLACEMENT; lia. }
  assert (∀ (c : Z) (o : option (list Z)) t,
            scalar c → (∀ t', o = Some t' → Forall scalar t') →
            cons c <$> o = Some t → Forall scalar t) as Hok.
  { intros c o t Hc Ho. destruct o as [t'|]; [|done].
    intros [= <-]. constructor; [done|by apply Ho]. }
  destruct bs as [|b0 r]; [by intros [= <-]|]. cbn [decode].
  unfold second3, second4, is_cont.
  repeat case_match; subst; unfold octet in *;
    repeat match goal with
           | H : Forall _ (_ :: _) |- _ => apply Forall_cons in H as [? ?]
           | H : (_ && _) = true |- _ => apply andb_true_iff in H as [? ?]
           | H : (_ <=? _)%Z = true |- _ => apply Z.leb_le in H
           | H : (_ <? _)%Z = true |- _ => apply Z.ltb_lt in H
           | H : (_ <? _)%Z = false |- _ => apply Z.ltb_ge in H
           | H : (_ =? _)%Z = true |- _ => apply Z.eqb_eq in H
           | H : (_ =? _)%Z = false |- _ => apply Z.eqb_neq in H
           end;
    intros Hd;
    first [ eapply Herr; [|exact Hd]; intros t' Ht';
            first [ by injection Ht' as <-
                  | eapply Hrec; [| |exact Ht']; [simpl; lia|];
                    repeat first [assumption | apply Forall_cons; split] ]
          | eapply Hok; [| |exact Hd];
            [ apply scalar_intro; lia
            | intros t' Ht'; eapply Hrec; [| |exact Ht']; [simpl; lia|];
              repeat first [assumption | apply Forall_cons; split] ] ].
Qed.

Lemma scalar_encodable (s : list Z) : Forall scalar s → encodable s = true.
Proof.
  unfold encodable. induction 1 as [|c s [_ Hc] _ IH]; [done|].
  simpl. by rewrite Hc, IH.
Qed.

(** X13.  Received text is well-formed.  Whatever octets [readline]
    returns, the text the reader queues for them is the replacing decode
    (the [str(line)] fallback is never taken) and holds Unicode scalar
    values only, never a lone surrogate: encoding it as UTF-8, as
    [save_log] does, cannot raise, and decoding those bytes strictly gives
    the text back. *)
Theorem received_text_well_formed (line : list Z) :
  Forall octet line →
  decode Replace line = Some (decode_line line)
  ∧ Forall scalar (decode_line line)
  ∧ encode Strict (decode_line line) = inr (encode_replace (decode_line line))
  ∧ decode Strict (encode_replace (decode_line line))
    = Some (decode_line line).
Proof.
  intros Hline. unfold decode_line.
  destruct (decode_replace_total line) as [text Ht]. rewrite Ht.
  pose proof (decode_scalar Replace line text Hline Ht) as Hs.
  split_and!; [done|done| |by apply decode_encode].
  apply encode_from_strict. by apply scalar_encodable.
Qed.

(** A line with a byte that is no UTF-8: ["h"], 0xFF, ["\n"]. *)
Lemma received_text_well_formed_FF :
  decode Replace [104; 255; 10]%Z = Some (decode_line [104; 255; 10]%Z)
  ∧ Forall scalar (decode_line [104; 255; 10]%Z)
  ∧ encode Strict (decode_line [104; 255; 10]%Z)
    = inr (encode_replace (decode_line [104; 255; 10]%Z))
  ∧ decode Strict (encode_replace (decode_line [104; 255; 10]%Z))
    = Some (decode_line [104; 255; 10]%Z).
Proof.
  apply (received_text_well_formed [104; 255; 10]%Z).
  repeat constructor; unfold octet; lia.
Defined.

(** Every event but a click on Clear leaves the lines of the console in
    place and may add lines after them. *)
Lemma step_console_grows (ev : event) (st : Monitor) :
  no_clear [ev] = true → ∃ more, console (step st ev) = console st ++ more.
Proof.
  assert (∃ more, console st = console st ++ more) as Hsame
    by (exists []; by rewrite app_nil_r).
  destruct ev as [o j c|w| |found|text|i|i|i|b|b|b|t r now|];
    cbn [no_clear forallb]; intros Hev; cbn [step]; try done.
  - unfold toggle_connection. case_match.
    + by rewrite disconnect_serial_console.
    + destruct (connect_serial_console o st) as (ls & -> & _). by eexists.
  - destruct (send_text_console w st) as (ls & -> & _). by eexists.
  - by case_match.
  - by destruct (run_iter_extends_queue t r now st) as (_ & _ & _ & -> & _).
  - rewrite flush_queue_console. by eexists.
Qed.

(** X14.  The console is append-only.  Across any run of events without a
    click on Clear, whatever the outcomes of opening, reading, writing,
    joining and closing, the console afterwards is the console before,
    line for line, followed by the lines added: no handler but
    [clear_log] removes or rewrites a displayed line. *)
Theorem console_append_only (evs : list event) (st : Monitor) :
  no_clear evs = true →
  ∃ more, console (run_events evs st) = console st ++ more.
Proof.
  revert st. induction evs as [|ev evs IH]; intros st Hevs.
  { exists []. by rewrite app_nil_r. }
  cbn [no_clear forallb] in Hevs. apply andb_true_iff in Hevs as [Hev Hevs].
  destruct (step_console_grows ev st) as [m1 H1].
  { cbn [no_clear forallb]. by rewrite Hev. }
  destruct (IH (step st ev) Hevs) as [m2 H2].
  exists (m1 ++ m2). unfold run_events in *. cbn [fold_left].
  by rewrite H2, H1, app_assoc.
Qed.

(** The example session shows one received line on an empty console. *)
Lemma console_append_only_session :
  ∃ more, console (run_events Scenario.session (init Scenario.found))
          = console (init Scenario.found) ++ more.
Proof.
  exact (console_append_only Scenario.session (init Scenario.found) eq_refl).
Defined.

End TextOnScreen.

(** ** What goes out on the line *)

Section Transmission.

Lemma lookup_alter_cases (f : Serial → Serial) (h0 h : nat) (l : list Serial)
  (p : Serial) :
  l !! h = Some p →
  alter f h0 l !! h = Some (if decide (h0 = h) then f p else p).
Proof.
  intros Hp. case_decide as Hh.
  - subst. by rewrite list_lookup_alter_eq, Hp.
  - by rewrite list_lookup_alter_ne.
Qed.

(** An event keeps every handle, with its device, baud rate and timeout;
    it adds to the bytes written only if it is a click on Send whose write
    goes through, and then on the controller's open handle. *)
Lemma step_handle (ev : event) (st : Monitor) (h : nat) (p : Serial) :
  ports st !! h = Some p →
  ∃ p', ports (step st ev) !! h = Some p'
        ∧ device p' = device p ∧ baudrate p' = baudrate p
        ∧ timeout_ms p' = timeout_ms p
        ∧ (tx p' = tx p
           ∨ (is_send ev = true ∧ ser st = Some h ∧ is_open p = true
              ∧ tx p' = tx p ++ [send_data st])).
Proof.
  intros Hp.
  assert (∃ p', ports st !! h = Some p'
        ∧ device p' = device p ∧ baudrate p' = baudrate p
        ∧ timeout_ms p' = timeout_ms p
        ∧ (tx p' = tx p
           ∨ (is_send ev = true ∧ ser st = Some h ∧ is_open p = true
              ∧ tx p' = tx p ++ [send_data st]))) as Hsame
    by (exists p; split_and!; auto).
  destruct ev as [o j c|w| |found|text|i|i|i|b|b|b|t r now|]; simpl;
    try done.
  - unfold toggle_connection. destruct (connected st).
    + destruct (disconnect_serial_spec j c st)
        as (_ & _ & Hports & _ & Hports' & _).
      cbn zeta in *. rewrite Hports'. unfold close_port.
      repeat case_match; cbn [state_of]; rewrite ?Hports; try done.
      unfold alter_port. cbn [ports set_ports]. rewrite Hports.
      rewrite (lookup_alter_cases _ _ _ _ p Hp).
      eexists. split; [done|]. by case_decide; auto.
    + destruct (connect_serial_cases o st)
        as [(_ & _ & -> & _)|(_ & _ & _ & (p' & -> & _) & _)]; [done|].
      rewrite lookup_app_l; [done|]. by eapply lookup_lt_Some.
  - unfold send_text, connected.
    destruct (ser st) as [h0|] eqn:Hser; [|done].
    destruct (port_is_open h0 st) eqn:Hh0; cbn [negb state_of]; [|done].
    destruct w; cbn [state_of].
    + assert (ports (alter_port (add_tx (send_data st)) h0 st) !! h
              = Some (if decide (h0 = h) then add_tx (send_data st) p else p))
        as Hl by (by apply lookup_alter_cases).
      eexists. split.
      { destruct (negb _); exact Hl. }
      case_decide as Hh; [|by auto]. subst h0.
      split_and!; try done. right. split_and!; try done.
      unfold port_is_open in Hh0. by rewrite Hp in Hh0.
    + match goal with |- context [append_text ?x st] =>
        by destruct (append_text_frame x st) as (_&_&_&_&->&_)
      end.
  - by case_match.
  - unfold run_iter. by repeat case_match.
  - rewrite flush_queue_spec. cbn zeta. by case_match.
Qed.

(** X15.  Only Send transmits.  Along any run, from any state, a handle
    keeps its device, its baud rate and its read timeout for life; what was
    written to it is never taken back, and the run adds at most one write
    per click on Send whose write went through.  So connecting,
    disconnecting, refreshing, the reader and the timer put nothing on the
    line. *)
Theorem only_send_transmits (evs : list event) (st : Monitor) (h : nat)
  (p : Serial) :
  ports st !! h = Some p →
  ∃ p' more, ports (run_events evs st) !! h = Some p'
             ∧ device p' = device p ∧ baudrate p' = baudrate p
             ∧ timeout_ms p' = timeout_ms p
             ∧ tx p' = tx p ++ more ∧ length more ≤ sends evs.
Proof.
  revert st p. induction evs as [|ev evs IH]; intros st p Hp.
  { exists p, []. rewrite app_nil_r. by split_and!. }
  destruct (step_handle ev st h p Hp) as (p1 & Hp1 & Hd1 & Hb1 & Ht1 & Htx1).
  destruct (IH (step st ev) p1 Hp1)
    as (p' & more & Hp' & Hd' & Hb' & Ht' & Htx' & Hlen).
  change (run_events (ev :: evs) st) with (run_events evs (step st ev)).
  cbn [sends].
  destruct Htx1 as [Htx1|(Hev & _ & _ & Htx1)].
  - exists p', more. rewrite Htx' , Htx1.
    split_and!; try done; try congruence. lia.
  - exists p', (send_data st :: more). rewrite Htx', Htx1, Hev.
    split_and!; try done; try congruence.
    + by rewrite <- app_assoc.
    + simpl. lia.
Qed.

(** The open handle of the example, over typing ["AT"] and sending it. *)
Lemma only_send_transmits_AT :
  ∃ p' more,
    ports (run_events [Type_text (Py.lit "AT"); Click_send WriteOk]
             Scenario.online) !! 0 = Some p'
    ∧ device p' = device Scenario.com3
    ∧ baudrate p' = baudrate Scenario.com3
    ∧ timeout_ms p' = timeout_ms Scenario.com3
    ∧ tx p' = tx Scenario.com3 ++ more
    ∧ length more ≤ sends [Type_text (Py.lit "AT"); Click_send WriteOk].
Proof.
  exact (only_send_transmits [Type_text (Py.lit "AT"); Click_send WriteOk]
           Scenario.online 0 Scenario.com3 eq_refl).
Defined.

(** X16.  A read failure ends the reader, not the connection.  In a
    reachable state the controller's reader, while alive, finds the flag
    clear and its port open; if its read raises, the pass queues the one
    error entry and the thread ends, but nothing is torn down: the
    controller still holds the open handle, the button still reads
    "Disconnect", the selector stays disabled, and nothing will be
    received again before the user disconnects and connects. *)
Theorem read_failure_keeps_connection (found : list (list Z * list Z))
  (evs : list event) (t : nat) (e : exn) (now : Clock.datetime) :
  reader (run_events evs (init found)) = Some t →
  thread_is_alive t (run_events evs (init found)) = true →
  let st := run_events evs (init found) in
  let st' := run_iter t (ReadFails e) now st in
  queue st' = queue st ++ [(None, Py.lit "[ERROR] " ++ str_of_exn e ++ [Py.LF])]
  ∧ thread_is_alive t st' = false
  ∧ ser st' = Some t ∧ reader st' = Some t ∧ connected st' = true
  ∧ connect_btn st' = Py.lit "Disconnect" ∧ port_box_enabled st' = false
  ∧ (∀ r now', run_iter t r now' st' = st').
Proof.
  intros Hrd Halive. cbn zeta.
  assert (paired (run_events evs (init found))) as (Hlen & Hser & Href).
  { apply run_events_keeps; [intros; by apply step_paired|apply init_paired]. }
  assert (widgets_agree (run_events evs (init found)))
    as (Hc & Hb & He & Hf).
  { apply run_events_keeps;
      [intros; by apply step_widgets_agree|apply init_widgets_agree]. }
  set (st := run_events evs (init found)) in *.
  assert (ser st = Some t) as Hs by congruence.
  assert (is_Some (ser st)) as Hsome by (by eexists).
  rewrite bool_decide_eq_true_2 in Hc, Hb, He by done.
  specialize (Hf Hsome).
  unfold thread_is_alive in Halive.
  destruct (threads st !! t) as [th|] eqn:Hth; [|done].
  pose proof (Hser t th Hth) as Hrs.
  assert (∃ p, ports st !! t = Some p ∧ is_open p = true) as (p & Hp & Hopen).
  { unfold connected in Hc. rewrite Hs in Hc. unfold port_is_open in Hc.
    destruct (ports st !! t) as [p|]; [|done]. by exists p. }
  assert (run_iter t (ReadFails e) now st
          = alter_thread (set_is_alive false) t
              (put (None, Py.lit "[ERROR] " ++ str_of_exn e ++ [Py.LF]) st))
    as Hpass.
  { unfold run_iter. rewrite Hth, Halive, Hf, Hrs, Hp. cbn [negb].
    unfold readline. by rewrite Hopen. }
  rewrite Hpass.
  assert (thread_is_alive t
            (alter_thread (set_is_alive false) t
               (put (None, Py.lit "[ERROR] " ++ str_of_exn e ++ [Py.LF]) st))
          = false) as Hdead.
  { unfold thread_is_alive, alter_thread. cbn [threads set_threads put set_queue].
    by rewrite list_lookup_alter_eq, Hth. }
  split_and!.
  - reflexivity.
  - exact Hdead.
  - exact Hs.
  - exact Hrd.
  - exact Hc.
  - exact Hb.
  - exact He.
  - intros r now'. by apply run_iter_dead.
Qed.

(** The connected window of the example, when the device is unplugged. *)
Lemma read_failure_keeps_connection_online :
  let st := run_events [Click_connect OpenOk JoinExited CloseOk]
              (init Scenario.found) in
  let st' := run_iter 0 (ReadFails Scenario.io_error) Scenario.noon st in
  queue st'
  = queue st
    ++ [(None, Py.lit "[ERROR] " ++ str_of_exn Scenario.io_error ++ [Py.LF])]
  ∧ thread_is_alive 0 st' = false
  ∧ ser st' = Some 0 ∧ reader st' = Some 0 ∧ connected st' = true
  ∧ connect_btn st' = Py.lit "Disconnect" ∧ port_box_enabled st' = false
  ∧ (∀ r now', run_iter 0 r now' st' = st').
Proof.
  exact (read_failure_keeps_connection Scenario.found
           [Click_connect OpenOk JoinExited CloseOk] 0 Scenario.io_error
           Scenario.noon eq_refl eq_refl).
Defined.

End Transmission.
